(** * Deferred version bumps: the [version apply] and [version check] commands

    A shallow embedding of the two commands of the plugin,
    [VersionApplyCommand] and [VersionCheckCommand] (both found in
    [sources/commands/apply.ts]): the relevancy computation of the
    interactive check ([getRelevancy], [setWorkspaceRelease]), what the form
    computes to display it ([Stats], the two groups and the focus of [App],
    the gems of [Undecided]) and the control flow of the two commands, with
    the calls into [versionUtils], the report sink, the installer and the
    terminal form recorded as events. *)

From stdpp Require Import gmap strings list fin_maps fin_sets pretty.

#[local] Set Warnings "-clear-no-such-hyp".

Open Scope string_scope.
Open Scope nat_scope.
Open Scope list_scope.

(** A [Workspace] object is used as a [Set] member and as a [Map] key, so only
    its identity matters.  The project holds one object per workspace; we name
    it by its [cwd], which the form also uses as the React [key]. *)
Abbreviation Workspace := string (only parsing).

(** ** The part of [versionUtils] the commands rely on *)

Module versionUtils.

(** Modelled from the spec: the [Decision] vocabulary of [versionUtils]
    ([sources/versionUtils] is not among the sources): the sentinel, the explicit
    refusal, the four increment keywords and an explicit version string. *)
Inductive Decision :=
| UNDECIDED
| DECLINE
| MAJOR
| MINOR
| PATCH
| PRERELEASE
| Explicit (version : string).

#[global] Instance Decision_eq_dec : EqDecision Decision.
Proof. solve_decision. Defined.

(** [Releases] is a [Map<Workspace, Decision>]. *)
Abbreviation Releases := (gmap string Decision) (only parsing).

(** Modelled from the spec: the workspace model is an external provider; the
    commands only need the list of workspaces and, for each of them, the
    workspaces its dependency ranges point at. *)
Record Project := {
  workspaces : list Workspace;
  dependencies : Workspace → list Workspace
}.

(** Modelled from the spec: a workspace "present as a key in [releases] with
    a decision other than DECLINE". *)
Definition isBumped (releases : Releases) (workspace : Workspace) : bool :=
  match releases !! workspace with
  | Some decision => bool_decide (decision ≠ DECLINE)
  | None => false
  end.

(** Modelled from the spec: the test a workspace passes to be reported, "it
    depends on any workspace present as a key in [releases] with a decision
    other than DECLINE, and the dependent itself has no entry in [releases]
    yet". *)
Definition needsDecision (project : Project) (releases : Releases)
    (workspace : Workspace) : bool :=
  bool_decide (releases !! workspace = None)
  && existsb (isBumped releases) (dependencies project workspace).

(** Modelled from the spec: [versionUtils.getUndecidedDependentWorkspaces],
    whose source is not among the sources.  Every workspace of the project
    that depends on a bumped workspace and has no entry in [releases] yet is
    reported with the decision [UNDECIDED]. *)
Definition getUndecidedDependentWorkspaces (project : Project)
    (releases : Releases) : list (Workspace * Decision) :=
  (λ workspace, (workspace, UNDECIDED))
    <$> filter (λ workspace, needsDecision project releases workspace = true)
               (workspaces project).

(** Modelled from the spec: what [getUndecidedDependentWorkspaces] promises
    whatever its implementation, in two strengths.  The weaker one: it
    reports workspaces of the project only ("for every workspace in the
    dependency graph"). *)
Definition answersWithinProject
    (dependents : Project → Releases → list (Workspace * Decision)) : Prop :=
  ∀ project releases entry,
    entry ∈ dependents project releases → entry.1 ∈ workspaces project.

(** Modelled from the spec: the stronger promise, that the reported
    workspaces are exactly the ones without an entry in [releases] that
    depend on a workspace bumped by [releases]. *)
Definition answersAsSpecified
    (dependents : Project → Releases → list (Workspace * Decision)) : Prop :=
  ∀ project releases workspace,
    workspace ∈ (dependents project releases).*1
    ↔ workspace ∈ workspaces project
      ∧ releases !! workspace = None
      ∧ ∃ dependency decision,
          dependency ∈ dependencies project workspace
          ∧ releases !! dependency = Some decision
          ∧ decision ≠ DECLINE.

End versionUtils.

(** The address of a [Map] object in the store of maps. *)
Abbreviation MapRef := positive (only parsing).

(** Modelled from the spec: the aggregate returned by
    [versionUtils.openVersionFile], with the fields the check command reads.
    [releases] is a [Map] object that the command mutates in place, so the
    record holds its address. *)
Record VersionFile := {
  project : versionUtils.Project;
  root : option string;
  changedFiles : list string;
  releaseRoots : gset string;
  releases : MapRef
}.

(** ** [getRelevancy] and [setWorkspaceRelease] ([VersionCheckCommand]) *)

Section Relevancy.

(** The source of [versionUtils.getUndecidedDependentWorkspaces] is not
    available: the computation is stated for any function in its place. *)
Context (getUndecidedDependentWorkspaces :
           versionUtils.Project → versionUtils.Releases
           → list (Workspace * versionUtils.Decision)).

Context (versionFile : VersionFile).

(** The state of the [while] loop: the two collections under construction
    and the flag of the current iteration. *)
Record LoopState := {
  relevantWorkspaces : gset string;
  relevantReleases : versionUtils.Releases;
  hasNewDependents : bool
}.

(** Body of [for (const [workspace] of undecidedDependentWorkspaces)]. *)
Definition considerDependent (releases : versionUtils.Releases) (st : LoopState)
    (entry : Workspace * versionUtils.Decision) : LoopState :=
  let workspace := entry.1 in
  if decide (workspace ∈ relevantWorkspaces st) then st
  else
    {| relevantWorkspaces := relevantWorkspaces st ∪ {[workspace]};
       relevantReleases :=
         match releases !! workspace with
         | Some release => <[workspace := release]> (relevantReleases st)
         | None => relevantReleases st
         end;
       hasNewDependents := true |}.

(** One turn of [while (true)]: ask for the undecided dependents of the
    current [relevantReleases], then add the ones not yet considered. *)
Definition iteration (releases : versionUtils.Releases) (st : LoopState) : LoopState :=
  let undecidedDependentWorkspaces :=
    getUndecidedDependentWorkspaces (project versionFile) (relevantReleases st) in
  let st0 := {| relevantWorkspaces := relevantWorkspaces st;
                relevantReleases := relevantReleases st;
                hasNewDependents := false |} in
  if bool_decide (0 < length undecidedDependentWorkspaces)
  then foldl (considerDependent releases) st0 undecidedDependentWorkspaces
  else st0.

(** The [while (true)] loop; [fuel] bounds the number of turns, and running
    out of it is [None]. *)
Fixpoint getRelevancy_loop (fuel : nat) (releases : versionUtils.Releases) (st : LoopState)
    : option (gset string * versionUtils.Releases) :=
  match fuel with
  | O => None
  | S fuel' =>
      let st' := iteration releases st in
      if hasNewDependents st'
      then getRelevancy_loop fuel' releases st'
      else Some (relevantWorkspaces st', relevantReleases st')
  end.

Definition getRelevancy_init (releases : versionUtils.Releases) : LoopState :=
  {| relevantWorkspaces := releaseRoots versionFile;
     relevantReleases :=
       filter (λ entry, entry.1 ∈ releaseRoots versionFile) releases;
     hasNewDependents := false |}.

Definition getRelevancy (fuel : nat) (releases : versionUtils.Releases)
    : option (gset string * versionUtils.Releases) :=
  getRelevancy_loop fuel releases (getRelevancy_init releases).

(** [setWorkspaceRelease]: the new value handed to [setReleases]. *)
Definition setWorkspaceRelease (fuel : nat) (releases : versionUtils.Releases)
    (workspace : Workspace) (decision : versionUtils.Decision) : option (versionUtils.Releases) :=
  let copy :=
    if decide (decision ≠ versionUtils.UNDECIDED)
    then <[workspace := decision]> releases
    else delete workspace releases in
  snd <$> getRelevancy fuel copy.

(** *** Notions used to state what the loop computes *)

Implicit Types (releases : versionUtils.Releases) (st : LoopState).

(** [relevantReleases] holds the input's entries of [relevantWorkspaces]
    and nothing else. *)
Definition restricts releases st : Prop :=
  ∀ w, relevantReleases st !! w
       = if decide (w ∈ relevantWorkspaces st) then releases !! w else None.

(** The workspaces reached from the release roots: a dependent is reached
    through a dependency that is itself reached and bumped by [releases]. *)
Inductive Implicated releases : string → Prop :=
| implicated_root w :
    w ∈ releaseRoots versionFile → Implicated releases w
| implicated_dependent w dep decision :
    Implicated releases dep →
    releases !! dep = Some decision →
    decision ≠ versionUtils.DECLINE →
    dep ∈ versionUtils.dependencies (project versionFile) w →
    w ∈ versionUtils.workspaces (project versionFile) →
    Implicated releases w.

(** Workspaces of the project the loop has not considered yet. *)
Definition remaining st : nat :=
  size (list_to_set (versionUtils.workspaces (project versionFile))
          ∖ relevantWorkspaces st : gset string).

(** What every turn of the loop maintains. *)
Record Inv releases st : Prop := {
  inv_roots : releaseRoots versionFile ⊆ relevantWorkspaces st;
  inv_restricts : restricts releases st;
  inv_implicated : ∀ w, w ∈ relevantWorkspaces st → Implicated releases w
}.

(** No entry holds the sentinel. *)
Definition noUndecided releases : Prop :=
  ∀ w : string, releases !! w ≠ Some versionUtils.UNDECIDED.

(** The [releases] state of the form after the user has made [choices], one
    call of [setWorkspaceRelease] each. *)
Fixpoint replay (fuel : nat) releases
    (choices : list (Workspace * versionUtils.Decision))
    : option versionUtils.Releases :=
  match choices with
  | [] => Some releases
  | choice :: rest =>
      match setWorkspaceRelease fuel releases choice.1 choice.2 with
      | Some releases' => replay fuel releases' rest
      | None => None
      end
  end.

End Relevancy.

(** ** Effects of the commands

    A command run is a sequence of calls into its collaborators (the
    functions of [versionUtils], the report sink, the installer, the terminal
    form) that ends by returning or by throwing.  The calls are recorded in
    order; what each collaborator answers is an input of the run. *)

Inductive Error :=
| WorkspaceRequiredError
| UsageError (message : string)
| CollaboratorError (message : string).

Inductive Outcome (A : Type) :=
| Returns (value : A)
| Throws (error : Error)
| OutOfFuel.

Arguments Returns {A} value.
Arguments Throws {A} error.
Arguments OutOfFuel {A}.

(** The values a clipanion option or a local variable of [execute] can hold. *)
Inductive JsValue :=
| JsUndefined
| JsNull
| JsBoolean (b : bool)
| JsString (s : string).

#[global] Instance JsValue_eq_dec : EqDecision JsValue.
Proof. solve_decision. Defined.

Inductive Event :=
| CheckRequirements
| RestoreInstallState
| ResolveVersionFiles (prerelease : JsValue)
| ApplyReleases (releases : versionUtils.Releases)
| ClearVersionFiles
| Install
| ReportWarning (message : string)
| ReportError (error : Error)
| ReportSeparator
| OpenVersionFile
| RenderForm
| SaveAll (releases : versionUtils.Releases).

#[global] Instance Error_eq_dec : EqDecision Error.
Proof. solve_decision. Defined.

#[global] Instance Outcome_eq_dec {A} `{EqDecision A} : EqDecision (Outcome A).
Proof. solve_decision. Defined.

#[global] Instance Event_eq_dec : EqDecision Event.
Proof. solve_decision. Defined.

(** The calls made so far and the store of the [Map] objects that are shared
    between the command and the form. *)
Record World := {
  events : list Event;
  maps : gmap positive (gmap string versionUtils.Decision)
}.

Definition Run (A : Type) : Type := World → World * Outcome A.

#[global] Instance Run_ret : MRet Run := λ A value world, (world, Returns value).

#[global] Instance Run_bind : MBind Run := λ A B k m world,
  match m world with
  | (world', Returns value) => k value world'
  | (world', Throws error) => (world', Throws error)
  | (world', OutOfFuel) => (world', OutOfFuel)
  end.

(** A command starts with nothing recorded. *)
Definition initial : World := {| events := []; maps := ∅ |}.

Definition throw {A} (error : Error) : Run A := λ world, (world, Throws error).

Definition outOfFuel {A} : Run A := λ world, (world, OutOfFuel).

(** A call into a collaborator: it is recorded, then answers [outcome]. *)
Definition call {A} (event : Event) (outcome : Outcome A) : Run A := λ world,
  ({| events := events world ++ [event]; maps := maps world |}, outcome).

Definition emit (event : Event) : Run unit := call event (Returns ()).

(** [new Map(entries)] *)
Definition newMap (entries : versionUtils.Releases) : Run MapRef := λ world,
  let ref := fresh (dom (maps world)) in
  ({| events := events world; maps := <[ref := entries]> (maps world) |}, Returns ref).

Definition readMap (ref : MapRef) : Run (gmap string versionUtils.Decision) := λ world,
  (world, Returns (maps world !!! ref)).

(** [map.clear()] *)
Definition clearMap (ref : MapRef) : Run unit := λ world,
  ({| events := events world; maps := <[ref := ∅]> (maps world) |}, Returns ()).

(** [map.set(workspace, decision)] *)
Definition setMap (ref : MapRef) (workspace : Workspace)
    (decision : versionUtils.Decision) : Run unit := λ world,
  ({| events := events world;
      maps := <[ref := <[workspace := decision]> (maps world !!! ref)]> (maps world) |},
   Returns ()).

Fixpoint forEach {A} (l : list A) (body : A → Run unit) : Run unit :=
  match l with
  | [] => mret ()
  | x :: l' => body x ;; forEach l' body
  end.

(** JavaScript truthiness, on the values above. *)
Definition truthy (v : JsValue) : bool :=
  match v with
  | JsUndefined | JsNull => false
  | JsBoolean b => b
  | JsString s => negb (String.eqb s "")
  end.

Definition isBoolean (v : JsValue) : bool :=
  match v with JsBoolean _ => true | _ => false end.

(** ** [yarn version apply] *)

Module VersionApplyCommand.

Record Options := {
  dryRun : bool;
  prerelease : JsValue;
  recursive : JsValue;
  json : bool
}.

(** What the collaborators answer during the run. *)
Record Collaborators := {
  workspace : option Workspace;
  resolveVersionFiles : JsValue → Outcome (gmap string versionUtils.Decision);
  applyReleases : gmap string versionUtils.Decision → Outcome unit;
  clearVersionFiles : Outcome unit;
  install : Outcome unit
}.

(** [this.prerelease ? (typeof this.prerelease !== 'boolean' ? this.prerelease
    : 'rc.%n') : null] *)
Definition prereleaseIdentifier (this_prerelease : JsValue) : JsValue :=
  if truthy this_prerelease
  then (if negb (isBoolean this_prerelease) then this_prerelease else JsString "rc.%n")
  else JsNull.

(** The callback given to [StreamReport.start]. *)
Definition reportCallback (this : Options) (env : Collaborators) : Run unit :=
  let prerelease := prereleaseIdentifier (prerelease this) in
  allReleases ← call (ResolveVersionFiles prerelease) (resolveVersionFiles env prerelease);
  if bool_decide (size allReleases = 0)
  then emit (ReportWarning "The workspace doesn't seem to require a version bump.")
  else
    call (ApplyReleases allReleases) (applyReleases env allReleases) ;;
    if negb (dryRun this)
    then
      (if negb (truthy prerelease)
       then call ClearVersionFiles (clearVersionFiles env)
       else mret ()) ;;
      emit ReportSeparator ;;
      call Install (install env)
    else mret ().

(** [StreamReport.start] followed by [exitCode()], of the host's report
    sink: an exception that leaves the callback is reported as an error, and
    the exit code is 1 when an error was reported, 0 otherwise.  What
    [applyReleases] and the installer themselves write on the report they
    are handed is not recorded, so the exit code of a run that has called
    one of them is the one of a run in which they report no error. *)
Definition streamReport (callback : Run unit) : Run Z := λ world,
  match callback world with
  | (world', Returns _) => (world', Returns 0%Z)
  | (world', Throws error) =>
      ({| events := events world' ++ [ReportError error]; maps := maps world' |},
       Returns 1%Z)
  | (world', OutOfFuel) => (world', OutOfFuel)
  end.

Definition execute (this : Options) (env : Collaborators) : Run Z :=
  match workspace env with
  | None => throw WorkspaceRequiredError
  | Some _ =>
      emit RestoreInstallState ;;
      streamReport (reportCallback this env)
  end.

End VersionApplyCommand.

(** ** [yarn version check] *)

Module VersionCheckCommand.

(** What the user does in the form: a sequence of choices made with the
    arrow keys, then <enter> ([confirmed]) or <ctrl+c>. *)
Record Session := {
  choices : list (Workspace * versionUtils.Decision);
  confirmed : bool
}.

(** What the collaborators answer during the run; the function
    [getUndecidedDependentWorkspaces] of [versionUtils] is one of them. *)
Record Collaborators := {
  checkRequirements : Outcome unit;
  workspace : option Workspace;
  openVersionFile : Outcome (option VersionFile);
  getUndecidedDependentWorkspaces :
    versionUtils.Project → versionUtils.Releases
    → list (Workspace * versionUtils.Decision);
  session : Session;
  saveAll : Outcome unit
}.

Section Form.

Context (dependents : versionUtils.Project → versionUtils.Releases
                      → list (Workspace * versionUtils.Decision)).
Context (fuel : nat) (versionFile : VersionFile).

(** A rendering of [App] recomputes the relevancy of the current
    [releases] to lay the two groups out.  The two assertions [Undecided]
    makes on the version of each workspace it displays are not part of the
    model: a form in which one of them fails has no run here, and what is
    proved of the command is stated from what the form returns. *)
Definition renderApp (state : MapRef) : Run unit :=
  releases ← readMap state;
  match getRelevancy dependents versionFile fuel releases with
  | Some _ => mret ()
  | None => outOfFuel
  end.

(** [setWorkspaceRelease] as a callback of the form: the state becomes a
    new [Map], and [App] is rendered again. *)
Definition setDecision (state : MapRef)
    (choice : Workspace * versionUtils.Decision) : Run MapRef :=
  releases ← readMap state;
  match setWorkspaceRelease dependents versionFile fuel releases choice.1 choice.2 with
  | Some relevantReleases =>
      state' ← newMap relevantReleases;
      renderApp state' ;;
      mret state'
  | None => outOfFuel
  end.

Fixpoint interact (state : MapRef)
    (todo : list (Workspace * versionUtils.Decision)) : Run MapRef :=
  match todo with
  | [] => mret state
  | choice :: todo' =>
      state' ← setDecision state choice;
      interact state' todo'
  end.

(** [renderForm(App, {versionFile}, ...)]: the initial state is
    [new Map(versionFile.releases)]; the form returns the [Map] last
    handed to [useSubmit], or [undefined] when the user aborts. *)
Definition renderForm (user : Session) : Run (option MapRef) :=
  emit RenderForm ;;
  initial ← readMap (releases versionFile);
  state ← newMap initial;
  renderApp state ;;
  final ← interact state (choices user);
  mret (if confirmed user then Some final else None).

End Form.

(** The return value is a number or [undefined]. *)
Definition executeInteractive (fuel : nat) (env : Collaborators) : Run (option Z) :=
  call CheckRequirements (checkRequirements env) ;;
  match workspace env with
  | None => throw WorkspaceRequiredError
  | Some _ =>
      emit RestoreInstallState ;;
      versionFile ← call OpenVersionFile (openVersionFile env);
      match versionFile with
      | None => mret (Some 0%Z)
      | Some versionFile =>
          if bool_decide (size (releaseRoots versionFile) = 0)
          then mret (Some 0%Z)
          else
            match root versionFile with
            | None =>
                throw (UsageError "This command can only be run on Git repositories")
            | Some _ =>
                decisions ← renderForm (getUndecidedDependentWorkspaces env) fuel
                              versionFile (session env);
                match decisions with
                | None => mret (Some 1%Z)
                | Some decisions =>
                    clearMap (releases versionFile) ;;
                    entries ← readMap decisions;
                    forEach (map_to_list entries) (λ entry,
                      setMap (releases versionFile) entry.1 entry.2) ;;
                    saved ← readMap (releases versionFile);
                    call (SaveAll saved) (saveAll env) ;;
                    mret None
                end
            end
      end
  end.

Definition execute := executeInteractive.

End VersionCheckCommand.

(** ** What the form displays ([Undecided], [Stats], [App])

    The three components are pure functions of the [releases] state, of the
    version file and of the [focus] counter.  Their layout and colours are
    left out; what is kept is what they compute: the decision a workspace is
    shown with, the counts of the summary line, the two groups of workspaces
    and the group that has the focus. *)

(** The [strategies] array of [Undecided]: what the arrow keys choose from. *)
Definition strategies : list versionUtils.Decision :=
  [versionUtils.UNDECIDED; versionUtils.DECLINE; versionUtils.PATCH;
   versionUtils.MINOR; versionUtils.MAJOR].

(** JavaScript truthiness of a decision: the keywords are non-empty strings,
    so only an empty explicit version is falsy. *)
Definition truthyDecision (decision : versionUtils.Decision) : bool :=
  match decision with
  | versionUtils.Explicit version => negb (String.eqb version "")
  | _ => true
  end.

(** [releases.get(workspace) || versionUtils.Decision.UNDECIDED], the
    [decision] property [App] hands to [Undecided]. *)
Definition displayedDecision (releases : versionUtils.Releases)
    (workspace : Workspace) : versionUtils.Decision :=
  match releases !! workspace with
  | Some release => if truthyDecision release then release else versionUtils.UNDECIDED
  | None => versionUtils.UNDECIDED
  end.

(** [strategies.map(strategy => ... isGemActive = strategy === decision)]:
    the row of gems of [Undecided], each with its label. *)
Definition gems (decision : versionUtils.Decision)
    : list (versionUtils.Decision * bool) :=
  (λ strategy, (strategy, bool_decide (strategy = decision))) <$> strategies.

(** Body of the [for] loop of [Stats], on the pair
    [(releaseCount, remainingCount)]. *)
Definition countRelease (releases : versionUtils.Releases)
    (counts : nat * nat) (workspace : Workspace) : nat * nat :=
  match releases !! workspace with
  | None => (counts.1, counts.2 + 1)
  | Some release =>
      if decide (release ≠ versionUtils.DECLINE)
      then (counts.1 + 1, counts.2)
      else counts
  end.

(** The two counters of [Stats] after the loop.  The loop visits every
    member of the [Set] once; the counters do not depend on the order. *)
Definition statsCounts (releases : versionUtils.Releases)
    (workspaces : gset string) : nat * nat :=
  foldl (countRelease releases) (0, 0) (elements workspaces).

(** The text of [Stats]: [parts.join(', ')]. *)
Definition Stats (releases : versionUtils.Releases) (workspaces : gset string)
    : string :=
  let releaseCount := (statsCounts releases workspaces).1 in
  let remainingCount := (statsCounts releases workspaces).2 in
  String.concat ", "
    [pretty (size workspaces) +:+ " total";
     pretty releaseCount +:+ " release"
       +:+ (if decide (releaseCount = 1) then "" else "s");
     pretty remainingCount +:+ " remaining"].

(** [new Set([...relevantWorkspaces].filter(workspace =>
    !versionFile.releaseRoots.has(workspace)))] *)
Definition dependentWorkspaces (versionFile : VersionFile)
    (relevantWorkspaces : gset string) : gset string :=
  filter (λ workspace, workspace ∉ releaseRoots versionFile) relevantWorkspaces.

(** The requests a [ScrollableItems] group sends when the focus leaves it. *)
Inductive FocusRequest :=
| BEFORE
| AFTER.

#[global] Instance FocusRequest_eq_dec : EqDecision FocusRequest.
Proof. solve_decision. Defined.

(** [handleFocusRequest]: the value handed to [setFocus]. *)
Definition handleFocusRequest (focus : Z) (request : FocusRequest) : Z :=
  match request with
  | BEFORE => (focus - 1)%Z
  | AFTER => (focus + 1)%Z
  end.

(** The [focus] state after a sequence of requests; it starts at 0. *)
Definition focusAfter (requests : list FocusRequest) : Z :=
  foldl handleFocusRequest 0%Z requests.

(** [active={focus % 2 === 0}], the group of the release roots.  The
    remainder of JavaScript has the sign of the dividend, as [Z.rem]. *)
Definition rootsActive (focus : Z) : bool :=
  bool_decide (Z.rem focus 2 = 0%Z).

(** [active={focus % 2 === 1}], the group of the dependents. *)
Definition dependentsActive (focus : Z) : bool :=
  bool_decide (Z.rem focus 2 = 1%Z).

(** ** Concrete scenarios *)

(** Scenario of the documentation: B depends on A, C depends on B. *)
Definition chain : versionUtils.Project :=
  {| versionUtils.workspaces := ["A"; "B"; "C"];
     versionUtils.dependencies := λ w,
       if String.eqb w "B" then ["A"]
       else if String.eqb w "C" then ["B"] else [] |}.

Definition chainFile (roots : gset string) : VersionFile :=
  {| project := chain; root := Some "/repo"; changedFiles := [];
     releaseRoots := roots; releases := 1%positive |}.

(** A run of [yarn version apply] in which every collaborator returns. *)
Definition applyOptions (dry : bool) (flag : JsValue) : VersionApplyCommand.Options :=
  {| VersionApplyCommand.dryRun := dry;
     VersionApplyCommand.prerelease := flag;
     VersionApplyCommand.recursive := JsUndefined;
     VersionApplyCommand.json := false |}.

Definition applyEnv (pending : gmap string versionUtils.Decision)
    : VersionApplyCommand.Collaborators :=
  {| VersionApplyCommand.workspace := Some "A";
     VersionApplyCommand.resolveVersionFiles := λ _, Returns pending;
     VersionApplyCommand.applyReleases := λ _, Returns ();
     VersionApplyCommand.clearVersionFiles := Returns ();
     VersionApplyCommand.install := Returns () |}.

(** B depends on the two release roots A and D. *)
Definition diamond : versionUtils.Project :=
  {| versionUtils.workspaces := ["A"; "B"; "D"];
     versionUtils.dependencies := λ w, if String.eqb w "B" then ["A"; "D"] else [] |}.

Definition diamondFile : VersionFile :=
  {| project := diamond; root := Some "/repo"; changedFiles := [];
     releaseRoots := {["A"; "D"]}; releases := 1%positive |}.

(** A run of [yarn version apply] in which [applyReleases] throws. *)
Definition applyEnvFailing (pending : gmap string versionUtils.Decision)
    : VersionApplyCommand.Collaborators :=
  {| VersionApplyCommand.workspace := Some "A";
     VersionApplyCommand.resolveVersionFiles := λ _, Returns pending;
     VersionApplyCommand.applyReleases :=
       λ _, Throws (CollaboratorError "Invalid version");
     VersionApplyCommand.clearVersionFiles := Returns ();
     VersionApplyCommand.install := Returns () |}.

(** The same project outside of a Git repository. *)
Definition chainFileWithoutGit : VersionFile :=
  {| project := chain; root := None; changedFiles := [];
     releaseRoots := {["A"]}; releases := 1%positive |}.

(** The user sets A back to UNDECIDED, then confirms or aborts. *)
Definition unrelease (confirm : bool) : VersionCheckCommand.Session :=
  {| VersionCheckCommand.choices := [("A", versionUtils.UNDECIDED)];
     VersionCheckCommand.confirmed := confirm |}.

(** Root A released, dependent B decided. *)
Definition decided : gmap string versionUtils.Decision :=
  {["A" := versionUtils.MINOR; "B" := versionUtils.PATCH]}.

(** A run of [yarn version check] on the chain project: the version file
    is found, its [releases] map lives at address 1 of the store. *)
Definition checkEnv (versionFile : VersionFile) (user : VersionCheckCommand.Session)
    : VersionCheckCommand.Collaborators :=
  {| VersionCheckCommand.checkRequirements := Returns ();
     VersionCheckCommand.workspace := Some "A";
     VersionCheckCommand.openVersionFile := Returns (Some versionFile);
     VersionCheckCommand.getUndecidedDependentWorkspaces :=
       versionUtils.getUndecidedDependentWorkspaces;
     VersionCheckCommand.session := user;
     VersionCheckCommand.saveAll := Returns () |}.

Definition checkWorld (stored : gmap string versionUtils.Decision) : World :=
  {| events := []; maps := {[1%positive := stored]} |}.

(** The user declines B, then confirms. *)
Definition declineB : VersionCheckCommand.Session :=
  {| VersionCheckCommand.choices := [("B", versionUtils.DECLINE)];
     VersionCheckCommand.confirmed := true |}.

(** The user looks at the form and confirms without choosing anything. *)
Definition untouched : VersionCheckCommand.Session :=
  {| VersionCheckCommand.choices := [];
     VersionCheckCommand.confirmed := true |}.

(** A version file's map with a decision left over for C, which only B
    could implicate. *)
Definition leftover : gmap string versionUtils.Decision :=
  {["A" := versionUtils.MINOR; "C" := versionUtils.MAJOR]}.

(** A run of [yarn version apply] in which [clearVersionFiles] throws. *)
Definition applyEnvUnclearable (pending : gmap string versionUtils.Decision)
    : VersionApplyCommand.Collaborators :=
  {| VersionApplyCommand.workspace := Some "A";
     VersionApplyCommand.resolveVersionFiles := λ _, Returns pending;
     VersionApplyCommand.applyReleases := λ _, Returns ();
     VersionApplyCommand.clearVersionFiles :=
       Throws (CollaboratorError "EACCES");
     VersionApplyCommand.install := Returns () |}.

(** * Facts about the model *)

(** ** The undecided dependents *)

Lemma isBumped_true (releases : versionUtils.Releases) (w : string) :
  versionUtils.isBumped releases w = true
  ↔ ∃ decision, releases !! w = Some decision ∧ decision ≠ versionUtils.DECLINE.
Proof.
  unfold versionUtils.isBumped. destruct (releases !! w) as [d|].
  - rewrite bool_decide_eq_true. split.
    + intros Hd. by exists d.
    + intros (d' & [= <-] & Hd). exact Hd.
  - split; [discriminate | intros (d & [=] & _)].
Qed.

Lemma elem_of_getUndecidedDependentWorkspaces
    (proj : versionUtils.Project) (releases : versionUtils.Releases)
    (w : string) (d : versionUtils.Decision) :
  (w, d) ∈ versionUtils.getUndecidedDependentWorkspaces proj releases
  ↔ d = versionUtils.UNDECIDED
    ∧ w ∈ versionUtils.workspaces proj
    ∧ releases !! w = None
    ∧ ∃ dep decision, dep ∈ versionUtils.dependencies proj w
        ∧ releases !! dep = Some decision ∧ decision ≠ versionUtils.DECLINE.
Proof.
  unfold versionUtils.getUndecidedDependentWorkspaces, versionUtils.needsDecision.
  rewrite list_elem_of_fmap. split.
  - intros (w' & [= -> ->] & Hin). apply list_elem_of_filter in Hin as [Hneed Hin].
    apply andb_true_iff in Hneed as [Hnone Hex].
    apply bool_decide_eq_true in Hnone. apply existsb_exists in Hex as (dep & Hdep & Hb).
    apply isBumped_true in Hb as (decision & Hdec & Hne).
    repeat split; try done. exists dep, decision. by rewrite list_elem_of_In.
  - intros (-> & Hin & Hnone & dep & decision & Hdep & Hdec & Hne).
    exists w. split; [done|]. apply list_elem_of_filter. split; [|done].
    apply andb_true_iff. split; [by apply bool_decide_eq_true|].
    apply existsb_exists. exists dep. split; [by apply list_elem_of_In|].
    apply isBumped_true. eauto.
Qed.

Lemma lookup_restrict (releases : versionUtils.Releases) (X : gset string) (w : string) :
  filter (λ entry : string * versionUtils.Decision, entry.1 ∈ X) releases !! w
  = if decide (w ∈ X) then releases !! w else None.
Proof.
  rewrite map_lookup_filter. destruct (releases !! w) as [d|]; simpl.
  - case_decide; [by rewrite option_guard_True | by rewrite option_guard_False].
  - by case_decide.
Qed.

Lemma size_list_to_set_le (l : list string) :
  size (list_to_set l : gset string) ≤ length l.
Proof.
  induction l as [|x l IH]; simpl.
  - change (size (∅ : gset string) ≤ 0). by rewrite size_empty.
  - rewrite size_union_alt, size_singleton.
    assert (size (list_to_set l ∖ {[x]} : gset string) ≤ size (list_to_set l : gset string))
      by (apply subseteq_size; set_solver).
    lia.
Qed.

(** ** The loop of [getRelevancy] *)

Section RelevancyFacts.

Context (dependents : versionUtils.Project → versionUtils.Releases
                      → list (Workspace * versionUtils.Decision)).
Context (versionFile : VersionFile).

Implicit Types (releases : versionUtils.Releases) (st : LoopState).
Implicit Types (w : string) (entry : string * versionUtils.Decision).

Local Abbreviation undecided st :=
  (dependents (project versionFile) (relevantReleases st)).

(** *** The [for] loop *)

Lemma considerDependent_workspaces releases st entry :
  relevantWorkspaces (considerDependent releases st entry)
  = relevantWorkspaces st ∪ {[entry.1]}.
Proof. unfold considerDependent. case_decide; simpl; set_solver. Qed.

Lemma considerDependent_restricts releases st entry :
  restricts releases st → restricts releases (considerDependent releases st entry).
Proof.
  intros Hst w. unfold considerDependent. case_decide as Hin; [apply Hst|]. simpl.
  destruct (decide (w = entry.1)) as [->|Hne].
  - rewrite decide_True by set_solver.
    destruct (releases !! entry.1) as [d|] eqn:Hd.
    + by rewrite lookup_insert_eq.
    + rewrite Hst. by rewrite decide_False.
  - assert (relevantReleases st !! w
            = match releases !! entry.1 with
              | Some release => <[entry.1:=release]> (relevantReleases st)
              | None => relevantReleases st
              end !! w) as <-.
    { destruct (releases !! entry.1); [by rewrite lookup_insert_ne|done]. }
    rewrite Hst. do 2 case_decide; set_solver.
Qed.

Lemma foldl_considerDependent_workspaces releases l st :
  relevantWorkspaces (foldl (considerDependent releases) st l)
  = relevantWorkspaces st ∪ list_to_set l.*1.
Proof.
  revert st. induction l as [|entry l IH]; intros st; simpl.
  - set_solver.
  - rewrite IH, considerDependent_workspaces. set_solver.
Qed.

Lemma foldl_considerDependent_restricts releases l st :
  restricts releases st → restricts releases (foldl (considerDependent releases) st l).
Proof.
  revert st. induction l as [|entry l IH]; intros st Hst; simpl; [done|].
  by apply IH, considerDependent_restricts.
Qed.

Lemma foldl_considerDependent_known releases l st :
  (∀ entry, entry ∈ l → entry.1 ∈ relevantWorkspaces st) →
  foldl (considerDependent releases) st l = st.
Proof.
  revert st. induction l as [|entry l IH]; intros st Hall; simpl; [done|].
  assert (considerDependent releases st entry = st) as ->.
  { unfold considerDependent. rewrite decide_True; [done|]. apply Hall. left. }
  apply IH. intros e He. apply Hall. by right.
Qed.

Lemma considerDependent_flag releases st entry :
  hasNewDependents (considerDependent releases st entry) = true
  ↔ hasNewDependents st = true ∨ entry.1 ∉ relevantWorkspaces st.
Proof.
  unfold considerDependent. case_decide as Hin; simpl.
  - split; [by left | by intros [?|?]].
  - split; [by right | done].
Qed.

Lemma foldl_considerDependent_flag releases l st :
  hasNewDependents (foldl (considerDependent releases) st l) = true
  ↔ hasNewDependents st = true
    ∨ ∃ entry, entry ∈ l ∧ entry.1 ∉ relevantWorkspaces st.
Proof.
  revert st. induction l as [|entry l IH]; intros st; simpl.
  - split; [by left|]. intros [?|(e & He & _)]; [done|]. by apply elem_of_nil in He.
  - rewrite IH, considerDependent_flag, considerDependent_workspaces. split.
    + intros [[?|Hnew]|(e & He & Hnew)]; [by left| |].
      * right. exists entry. split; [left|done].
      * right. exists e. split; [by right|set_solver].
    + intros [?|(e & He & Hnew)]; [by left; left|].
      apply elem_of_cons in He as [->|He]; [by left; right|].
      destruct (decide (entry.1 ∈ relevantWorkspaces st)) as [Hin|Hin]; [|by left; right].
      right. exists e. split; [done|].
      intros [?|Heq%elem_of_singleton]%elem_of_union; [done|]. by rewrite Heq in Hnew.
Qed.

(** *** One turn of the [while] loop *)

Lemma iteration_unfold releases st :
  iteration dependents versionFile releases st
  = foldl (considerDependent releases)
      {| relevantWorkspaces := relevantWorkspaces st;
         relevantReleases := relevantReleases st;
         hasNewDependents := false |} (undecided st).
Proof.
  unfold iteration.
  destruct (undecided st) as [|entry l]; [done|].
  by rewrite bool_decide_eq_true_2 by (simpl; lia).
Qed.

Lemma iteration_workspaces releases st :
  relevantWorkspaces (iteration dependents versionFile releases st)
  = relevantWorkspaces st ∪ list_to_set (undecided st).*1.
Proof. by rewrite iteration_unfold, foldl_considerDependent_workspaces. Qed.

Lemma iteration_restricts releases st :
  restricts releases st → restricts releases (iteration dependents versionFile releases st).
Proof.
  intros Hst. rewrite iteration_unfold. by apply foldl_considerDependent_restricts.
Qed.

Lemma iteration_flag releases st :
  hasNewDependents (iteration dependents versionFile releases st) = true
  ↔ ∃ entry, entry ∈ undecided st ∧ entry.1 ∉ relevantWorkspaces st.
Proof.
  rewrite iteration_unfold, foldl_considerDependent_flag. simpl.
  split; [intros [?|?]; done | by right].
Qed.

(** A turn that finds no new dependent leaves both collections as they
    were. *)
Lemma iteration_stable releases st :
  hasNewDependents (iteration dependents versionFile releases st) = false →
  relevantWorkspaces (iteration dependents versionFile releases st) = relevantWorkspaces st
  ∧ relevantReleases (iteration dependents versionFile releases st) = relevantReleases st.
Proof.
  intros Hflag.
  assert (∀ entry, entry ∈ undecided st → entry.1 ∈ relevantWorkspaces st) as Hall.
  { intros entry He. destruct (decide (entry.1 ∈ relevantWorkspaces st)) as [|Hnew]; [done|].
    assert (hasNewDependents (iteration dependents versionFile releases st) = true) as Ht
      by (apply iteration_flag; eauto).
    congruence. }
  rewrite iteration_unfold. by rewrite foldl_considerDependent_known.
Qed.

(** *** What every turn maintains *)

(** The loop returns the collections of a state from which a turn finds
    nothing new, and that state satisfies whatever the turns preserve. *)
Lemma getRelevancy_loop_invariant (P : LoopState → Prop) releases :
  (∀ st, P st → P (iteration dependents versionFile releases st)) →
  ∀ fuel st RW RR,
    P st →
    getRelevancy_loop dependents versionFile fuel releases st = Some (RW, RR) →
    ∃ st', P st'
           ∧ hasNewDependents (iteration dependents versionFile releases st') = false
           ∧ RW = relevantWorkspaces st' ∧ RR = relevantReleases st'.
Proof.
  intros Hstep fuel. induction fuel as [|fuel IH]; intros st RW RR HP; simpl; [done|].
  destruct (hasNewDependents (iteration dependents versionFile releases st)) eqn:Hflag.
  - intros Hloop. by apply (IH (iteration dependents versionFile releases st)); [apply Hstep|].
  - intros [= <- <-]. exists st.
    destruct (iteration_stable _ _ Hflag) as [-> ->]. done.
Qed.

(** Whatever [getUndecidedDependentWorkspaces] answers, the result holds the
    release roots and the input's entries of the relevant workspaces. *)
Lemma getRelevancy_Some fuel releases RW RR :
  getRelevancy dependents versionFile fuel releases = Some (RW, RR) →
  RR = filter (λ entry : string * versionUtils.Decision, entry.1 ∈ RW) releases
  ∧ releaseRoots versionFile ⊆ RW.
Proof.
  intros Hloop.
  apply (getRelevancy_loop_invariant
           (λ st, releaseRoots versionFile ⊆ relevantWorkspaces st
                  ∧ restricts releases st)) in Hloop
    as (st & [Hroots Hres] & _ & -> & ->).
  - split; [|done]. apply map_eq. intros w. rewrite lookup_restrict. apply Hres.
  - intros st [Hroots Hres]. split; [|by apply iteration_restricts].
    rewrite iteration_workspaces. set_solver.
  - split; [done|]. intros w. apply lookup_restrict.
Qed.

(** *** [setWorkspaceRelease] *)

Lemma noUndecided_map_Forall releases :
  noUndecided releases
  ↔ map_Forall (λ _ decision, decision ≠ versionUtils.UNDECIDED) releases.
Proof.
  unfold noUndecided, map_Forall. split.
  - intros Hno w decision Hw ->. by apply (Hno w).
  - intros Hall w Hw. by apply (Hall w versionUtils.UNDECIDED).
Qed.

Lemma setWorkspaceRelease_Some releases w decision fuel releases' :
  setWorkspaceRelease dependents versionFile fuel releases w decision = Some releases' →
  (∀ w', releases' !! w' = Some versionUtils.UNDECIDED →
         w' ≠ w ∧ releases !! w' = Some versionUtils.UNDECIDED)
  ∧ (decision = versionUtils.UNDECIDED → releases' !! w = None).
Proof.
  unfold setWorkspaceRelease.
  destruct (getRelevancy dependents versionFile fuel _) as [[RW RR]|] eqn:Hrun; [|done].
  intros [= <-]. destruct (getRelevancy_Some _ _ _ _ Hrun) as (-> & _).
  split.
  - intros w'. rewrite lookup_restrict. destruct (decide (w' ∈ RW)) as [_|_]; [|done].
    destruct (decide (decision ≠ versionUtils.UNDECIDED)) as [Hd|Hd].
    + destruct (decide (w = w')) as [<-|Hne].
      * rewrite lookup_insert_eq. by intros [= ->].
      * rewrite lookup_insert_ne by done. done.
    + destruct (decide (w = w')) as [<-|Hne].
      * by rewrite lookup_delete_eq.
      * rewrite lookup_delete_ne by done. done.
  - intros ->. rewrite lookup_restrict. destruct (decide (w ∈ RW)) as [_|_]; [|done].
    rewrite decide_False by (intros Hd; by apply Hd). apply lookup_delete_eq.
Qed.

Lemma replay_noUndecided releases choices fuel final :
  noUndecided releases →
  replay dependents versionFile fuel releases choices = Some final →
  noUndecided final.
Proof.
  revert releases. induction choices as [|choice rest IH]; intros releases Hno; simpl.
  - by intros [= <-].
  - destruct (setWorkspaceRelease dependents versionFile fuel releases choice.1 choice.2)
      as [releases'|] eqn:Hset; [|done].
    apply IH. intros w' Hw'.
    destruct (setWorkspaceRelease_Some _ _ _ _ _ Hset) as [Hkeep _].
    destruct (Hkeep w' Hw') as [_ Hold]. by apply (Hno w').
Qed.

(** *** When no release root is bumped *)

Lemma Implicated_roots_only releases :
  (∀ r decision, r ∈ releaseRoots versionFile → releases !! r = Some decision →
                 decision = versionUtils.DECLINE) →
  ∀ w, Implicated versionFile releases w → w ∈ releaseRoots versionFile.
Proof.
  intros Hroots w Hw.
  induction Hw as [w Hw | w dep decision _ IH Hdec Hne Hdep Hproj]; [done|].
  by destruct (Hne (Hroots dep decision IH Hdec)).
Qed.

(** Without release roots the first turn asks about the empty map, for
    which a function that answers as specified reports nothing. *)
Lemma iteration_init_no_roots releases :
  versionUtils.answersAsSpecified dependents →
  releaseRoots versionFile = ∅ →
  hasNewDependents (iteration dependents versionFile releases
                      (getRelevancy_init versionFile releases))
  = false.
Proof.
  intros Hspec Hroots. apply not_true_is_false. intros (entry & Hentry & _)%iteration_flag.
  assert (entry.1 ∈ (undecided (getRelevancy_init versionFile releases)).*1) as Hin
    by (apply list_elem_of_fmap; eauto).
  apply Hspec in Hin as (_ & _ & dep & decision & _ & Hdec & _).
  simpl in Hdec. rewrite lookup_restrict, Hroots in Hdec.
  by rewrite decide_False in Hdec by set_solver.
Qed.

End RelevancyFacts.

(** ** When the answers are workspaces of the project *)

Section RelevancyBounded.

Context (dependents : versionUtils.Project → versionUtils.Releases
                      → list (Workspace * versionUtils.Decision)).
Context (versionFile : VersionFile).

Hypothesis within : versionUtils.answersWithinProject dependents.

Implicit Types (releases : versionUtils.Releases) (st : LoopState).
Implicit Types (w : string) (entry : string * versionUtils.Decision).

(** A turn that finds a new dependent adds a workspace of the project that
    was not considered before. *)
Lemma iteration_progress releases st :
  hasNewDependents (iteration dependents versionFile releases st) = true →
  relevantWorkspaces st ⊂ relevantWorkspaces (iteration dependents versionFile releases st)
  ∧ ∃ w, w ∈ versionUtils.workspaces (project versionFile)
       ∧ (w ∉ relevantWorkspaces st)
       ∧ w ∈ relevantWorkspaces (iteration dependents versionFile releases st).
Proof.
  intros (entry & He & Hnew)%iteration_flag.
  assert (entry.1 ∈ relevantWorkspaces (iteration dependents versionFile releases st)) as Hin.
  { rewrite iteration_workspaces. apply elem_of_union_r, elem_of_list_to_set.
    apply list_elem_of_fmap. eauto. }
  split.
  - split; [rewrite iteration_workspaces; set_solver|]. intros Hsub. by apply Hnew, Hsub.
  - exists entry.1. split; [by eapply within|done].
Qed.

Lemma iteration_remaining releases st :
  hasNewDependents (iteration dependents versionFile releases st) = true →
  remaining versionFile (iteration dependents versionFile releases st)
  < remaining versionFile st.
Proof.
  intros ([Hsub _] & w & Hw & Hnew & Hin)%iteration_progress.
  unfold remaining. apply subset_size. split; [set_solver|].
  intros Hback.
  assert (w ∈ list_to_set (versionUtils.workspaces (project versionFile))
              ∖ relevantWorkspaces (iteration dependents versionFile releases st)) as Hbad.
  { apply Hback. apply elem_of_difference. split; [by apply elem_of_list_to_set|done]. }
  set_solver.
Qed.

Lemma remaining_le_workspaces st :
  remaining versionFile st ≤ length (versionUtils.workspaces (project versionFile)).
Proof.
  unfold remaining. etrans; [|apply size_list_to_set_le].
  apply subseteq_size. set_solver.
Qed.

(** The loop makes a definite number of turns, at most one more than the
    number of project workspaces it has not considered yet; with less fuel
    than that it is cut short, with that much or more it returns. *)
Lemma getRelevancy_loop_turns releases st :
  ∃ turns result,
    1 ≤ turns ≤ S (remaining versionFile st)
    ∧ ∀ fuel, getRelevancy_loop dependents versionFile fuel releases st
              = if decide (turns ≤ fuel) then Some result else None.
Proof.
  remember (remaining versionFile st) as k eqn:Hk.
  revert st Hk. induction (lt_wf k) as [k _ IH]. intros st ->.
  destruct (hasNewDependents (iteration dependents versionFile releases st)) eqn:Hflag.
  - destruct (IH _ (iteration_remaining _ _ Hflag) _ eq_refl) as (turns & result & Hle & Hfuel).
    exists (S turns), result. split.
    { pose proof (iteration_remaining _ _ Hflag). lia. }
    intros [|fuel]; simpl; [done|]. rewrite Hflag, Hfuel.
    repeat case_decide; done || lia.
  - exists 1, (relevantWorkspaces (iteration dependents versionFile releases st),
               relevantReleases (iteration dependents versionFile releases st)).
    split; [lia|]. intros [|fuel]; simpl; [done|]. by rewrite Hflag.
Qed.

(** [getRelevancy] returns as soon as it is given one unit of fuel more
    than there are project workspaces outside the release roots. *)
Lemma getRelevancy_turns releases :
  ∃ turns result,
    1 ≤ turns
    ∧ turns ≤ S (size (list_to_set (versionUtils.workspaces (project versionFile))
                        ∖ releaseRoots versionFile : gset string))
    ∧ ∀ fuel, getRelevancy dependents versionFile fuel releases
              = if decide (turns ≤ fuel) then Some result else None.
Proof.
  destruct (getRelevancy_loop_turns releases (getRelevancy_init versionFile releases))
    as (turns & result & [Hlo Hhi] & Hfuel).
  exists turns, result. done.
Qed.

Lemma getRelevancy_is_Some releases fuel :
  length (versionUtils.workspaces (project versionFile)) < fuel →
  ∃ RW RR, getRelevancy dependents versionFile fuel releases = Some (RW, RR).
Proof.
  intros Hfuel. destruct (getRelevancy_turns releases) as (turns & [RW RR] & _ & Hhi & Hres).
  exists RW, RR. rewrite Hres, decide_True; [done|].
  pose proof (remaining_le_workspaces (getRelevancy_init versionFile releases)) as Hle.
  unfold remaining in Hle. simpl in Hle. lia.
Qed.

Lemma setWorkspaceRelease_is_Some releases w decision fuel :
  length (versionUtils.workspaces (project versionFile)) < fuel →
  is_Some (setWorkspaceRelease dependents versionFile fuel releases w decision).
Proof.
  intros Hfuel. unfold setWorkspaceRelease.
  destruct (getRelevancy_is_Some
              (if decide (decision ≠ versionUtils.UNDECIDED)
               then <[w:=decision]> releases else delete w releases) fuel Hfuel)
    as (RW & RR & ->).
  by eexists.
Qed.

Lemma replay_is_Some releases choices fuel :
  length (versionUtils.workspaces (project versionFile)) < fuel →
  is_Some (replay dependents versionFile fuel releases choices).
Proof.
  intros Hfuel. revert releases.
  induction choices as [|choice rest IH]; intros releases; simpl; [by eexists|].
  destruct (setWorkspaceRelease_is_Some releases choice.1 choice.2 fuel Hfuel) as [r ->].
  apply IH.
Qed.

(** C2: a turn of the loop either adds to [relevantWorkspaces] a workspace
    of the project that was not in it, or changes nothing and is the last
    one; so the loop makes a definite number of turns, the last one included
    at most one more than the number of workspaces of the project (and at
    most that number when the roots are workspaces of a non-empty project
    and the dependents are reported as specified), and it returns whenever
    it is given that much fuel. *)
Theorem getRelevancy_terminates releases :
  (∀ st,
     let st' := iteration dependents versionFile releases st in
     (hasNewDependents st' = true →
      relevantWorkspaces st ⊂ relevantWorkspaces st'
      ∧ ∃ w, w ∈ versionUtils.workspaces (project versionFile)
             ∧ (w ∉ relevantWorkspaces st) ∧ w ∈ relevantWorkspaces st')
     ∧ (hasNewDependents st' = false →
        relevantWorkspaces st' = relevantWorkspaces st
        ∧ relevantReleases st' = relevantReleases st)
     ∧ ∀ fuel, getRelevancy_loop dependents versionFile (S fuel) releases st
               = if hasNewDependents st'
                 then getRelevancy_loop dependents versionFile fuel releases st'
                 else Some (relevantWorkspaces st', relevantReleases st'))
  ∧ ∃ turns result,
      1 ≤ turns
      ∧ turns ≤ S (size (list_to_set (versionUtils.workspaces (project versionFile))
                          ∖ releaseRoots versionFile : gset string))
      ∧ turns ≤ S (length (versionUtils.workspaces (project versionFile)))
      ∧ (versionUtils.answersAsSpecified dependents →
         releaseRoots versionFile
           ⊆ list_to_set (versionUtils.workspaces (project versionFile)) →
         versionUtils.workspaces (project versionFile) ≠ [] →
         turns ≤ size (list_to_set (versionUtils.workspaces (project versionFile))
                         : gset string))
      ∧ ∀ fuel, getRelevancy dependents versionFile fuel releases
                = if decide (turns ≤ fuel) then Some result else None.
Proof.
  split.
  - intros st st'. subst st'. split; [apply iteration_progress|].
    split; [apply iteration_stable|]. done.
  - destruct (getRelevancy_turns releases) as (turns & result & Hlo & Hhi & Hrun).
    exists turns, result. split; [done|]. split; [done|].
    pose proof (remaining_le_workspaces (getRelevancy_init versionFile releases)) as Hle.
    unfold remaining in Hle. simpl in Hle.
    split; [lia|]. split; [|done].
    intros Hspec Hsub Hne.
    destruct (decide (releaseRoots versionFile = ∅)) as [Hempty|Hroots].
    + assert (turns ≤ 1) as Hone.
      { specialize (Hrun 1). unfold getRelevancy in Hrun. simpl in Hrun.
        rewrite (iteration_init_no_roots _ _ releases Hspec Hempty) in Hrun.
        case_decide; [done|discriminate]. }
      assert (size (list_to_set (versionUtils.workspaces (project versionFile))
                    : gset string) ≠ 0); [|lia].
      apply size_non_empty_iff.
      destruct (versionUtils.workspaces (project versionFile)) as [|w l]; [done|].
      set_solver.
    + rewrite size_difference in Hhi by done.
      assert (size (releaseRoots versionFile) ≠ 0)
        by (apply size_non_empty_iff; by intros ?%leibniz_equiv).
      pose proof (subseteq_size _ _ Hsub). lia.
Qed.

(** C9: [relevantReleases] is the input map restricted to
    [relevantWorkspaces]: its entries are entries of the input with the
    decision they had there, every input entry of a relevant workspace is
    kept, and the release roots are relevant. *)
Theorem getRelevancy_restriction releases fuel :
  length (versionUtils.workspaces (project versionFile)) < fuel →
  ∃ RW RR,
    getRelevancy dependents versionFile fuel releases = Some (RW, RR)
    ∧ RR = filter (λ entry : string * versionUtils.Decision, entry.1 ∈ RW) releases
    ∧ (∀ w decision, RR !! w = Some decision → releases !! w = Some decision ∧ w ∈ RW)
    ∧ (∀ w decision, w ∈ RW → releases !! w = Some decision → RR !! w = Some decision)
    ∧ (∀ w, releases !! w = None → RR !! w = None)
    ∧ releaseRoots versionFile ⊆ RW.
Proof.
  intros Hfuel.
  destruct (getRelevancy_is_Some releases fuel Hfuel) as (RW & RR & Hrun).
  exists RW, RR. split; [done|].
  destruct (getRelevancy_Some _ _ _ _ _ _ Hrun) as (-> & Hroots).
  split; [done|]. split; [|split; [|split; [|done]]].
  - intros w decision. rewrite lookup_restrict. by case_decide.
  - intros w decision Hin Hdec. rewrite lookup_restrict. by rewrite decide_True.
  - intros w Hnone. rewrite lookup_restrict. by case_decide.
Qed.

(** C8: [setWorkspaceRelease] never stores the sentinel: an UNDECIDED entry
    of the new map was already in the old one, for another workspace; so a
    map without UNDECIDED entries stays so, whatever the user chooses and
    however often, and choosing UNDECIDED leaves the workspace without an
    entry. *)
Theorem setWorkspaceRelease_no_undecided releases w decision fuel :
  length (versionUtils.workspaces (project versionFile)) < fuel →
  ∃ releases',
    setWorkspaceRelease dependents versionFile fuel releases w decision = Some releases'
    ∧ (∀ w', releases' !! w' = Some versionUtils.UNDECIDED →
             w' ≠ w ∧ releases !! w' = Some versionUtils.UNDECIDED)
    ∧ (noUndecided releases → noUndecided releases')
    ∧ (decision = versionUtils.UNDECIDED → releases' !! w = None)
    ∧ (noUndecided releases →
       ∀ choices, ∃ final,
         replay dependents versionFile fuel releases choices = Some final
         ∧ noUndecided final).
Proof.
  intros Hfuel.
  destruct (setWorkspaceRelease_is_Some releases w decision fuel Hfuel) as [releases' Hset].
  exists releases'. split; [done|].
  destruct (setWorkspaceRelease_Some _ _ _ _ _ _ _ Hset) as [Hkeep Hdel].
  split; [done|]. split; [|split; [done|]].
  - intros Hno w' Hw'. destruct (Hkeep w' Hw') as [_ Hold]. by apply (Hno w').
  - intros Hno choices.
    destruct (replay_is_Some releases choices fuel Hfuel) as [final Hfinal].
    exists final. split; [done|]. by eapply replay_noUndecided.
Qed.

(** X2: a decision other than UNDECIDED chosen for a release root is always
    stored: the roots are relevant whatever the other decisions are. *)
Theorem setWorkspaceRelease_root_stored releases w decision fuel :
  length (versionUtils.workspaces (project versionFile)) < fuel →
  w ∈ releaseRoots versionFile →
  decision ≠ versionUtils.UNDECIDED →
  ∃ releases',
    setWorkspaceRelease dependents versionFile fuel releases w decision = Some releases'
    ∧ releases' !! w = Some decision.
Proof.
  intros Hfuel Hroot Hdecision. unfold setWorkspaceRelease.
  rewrite decide_True by done.
  destruct (getRelevancy_is_Some (<[w := decision]> releases) fuel Hfuel)
    as (RW & RR & Hrun).
  rewrite Hrun. exists RR. split; [done|].
  destruct (getRelevancy_Some _ _ _ _ _ _ Hrun) as (-> & Hroots).
  rewrite lookup_restrict, decide_True by by apply Hroots.
  apply lookup_insert_eq.
Qed.

End RelevancyBounded.

(** ** When the answers are the specified ones *)

Lemma answersAsSpecified_within dependents :
  versionUtils.answersAsSpecified dependents → versionUtils.answersWithinProject dependents.
Proof.
  intros Hspec proj releases entry Hentry.
  assert (entry.1 ∈ (dependents proj releases).*1) as Hin
    by (apply list_elem_of_fmap; eauto).
  by apply Hspec in Hin as (? & _).
Qed.

Section RelevancySpecified.

Context (dependents : versionUtils.Project → versionUtils.Releases
                      → list (Workspace * versionUtils.Decision)).
Context (versionFile : VersionFile).

Hypothesis specified : versionUtils.answersAsSpecified dependents.

Implicit Types (releases : versionUtils.Releases) (st : LoopState).
Implicit Types (w : string) (entry : string * versionUtils.Decision).

Lemma getRelevancy_init_Inv releases :
  Inv versionFile releases (getRelevancy_init versionFile releases).
Proof.
  split; simpl.
  - done.
  - intros w. apply lookup_restrict.
  - intros w Hw. by apply implicated_root.
Qed.

Lemma iteration_Inv releases st :
  Inv versionFile releases st →
  Inv versionFile releases (iteration dependents versionFile releases st).
Proof.
  intros [Hroots Hres Himp]. split.
  - rewrite iteration_workspaces. set_solver.
  - by apply iteration_restricts.
  - intros w. rewrite iteration_workspaces.
    intros [Hw|Hw]%elem_of_union; [by apply Himp|].
    apply elem_of_list_to_set, specified in Hw
      as (Hproj & _ & dep & decision & Hdep & Hdec & Hne).
    rewrite Hres in Hdec. case_decide as Hin; [|done].
    by eapply implicated_dependent; [apply Himp| | | |].
Qed.

(** When a turn finds nothing new, every implicated workspace is already
    in [relevantWorkspaces]. *)
Lemma Inv_closed releases st :
  Inv versionFile releases st →
  hasNewDependents (iteration dependents versionFile releases st) = false →
  ∀ w, Implicated versionFile releases w → w ∈ relevantWorkspaces st.
Proof.
  intros [Hroots Hres Himp] Hflag w Hw.
  induction Hw as [w Hw | w dep decision _ IH Hdec Hne Hdep Hproj]; [by apply Hroots|].
  destruct (decide (w ∈ relevantWorkspaces st)) as [|Hnew]; [done|].
  assert (w ∈ (dependents (project versionFile) (relevantReleases st)).*1) as Hin.
  { apply specified. split; [done|]. split.
    - rewrite Hres. by rewrite decide_False.
    - exists dep, decision. split; [done|]. split; [|done].
      rewrite Hres. by rewrite decide_True. }
  apply list_elem_of_fmap in Hin as (entry & -> & Hentry).
  assert (hasNewDependents (iteration dependents versionFile releases st) = true) as Ht;
    [|congruence].
  apply iteration_flag. eauto.
Qed.

Lemma getRelevancy_Implicated fuel releases RW RR :
  getRelevancy dependents versionFile fuel releases = Some (RW, RR) →
  ∀ w, w ∈ RW ↔ Implicated versionFile releases w.
Proof.
  intros Hloop.
  apply (getRelevancy_loop_invariant _ _ (Inv versionFile releases)) in Hloop
    as (st & Hinv & Hflag & -> & ->);
    [|apply iteration_Inv|apply getRelevancy_init_Inv].
  intros w. split; [apply Hinv | by apply Inv_closed].
Qed.

(** C1, as the code has it: [getRelevancy] returns as [relevantWorkspaces]
    exactly the release roots and the workspaces implicated, step by step,
    by the decisions it retains, and as [relevantReleases] exactly the
    decisions of the input whose workspace is reached that way.  In
    particular, when the decision of
    a root is removed from the input, a dependent stays relevant only if it
    is a release root or is still implicated by a retained decision; so when
    no other root holds a releasing decision (as when the root is the only
    one), the relevant set is the set of roots, and a dependent that had
    been decided is dropped with its decision unless it is a release root. *)
Theorem getRelevancy_prunes releases fuel :
  length (versionUtils.workspaces (project versionFile)) < fuel →
  ∃ RW RR,
    getRelevancy dependents versionFile fuel releases = Some (RW, RR)
    ∧ (∀ w, w ∈ RW ↔ Implicated versionFile releases w)
    ∧ (∀ w decision,
         RR !! w = Some decision
         ↔ releases !! w = Some decision ∧ Implicated versionFile releases w)
    ∧ ∀ root, ∃ RW' RR',
        getRelevancy dependents versionFile fuel (delete root releases) = Some (RW', RR')
        ∧ (∀ dependent,
             dependent ∈ RW'
             ↔ Implicated versionFile (delete root releases) dependent)
        ∧ (∀ dependent,
             ¬ Implicated versionFile (delete root releases) dependent →
             RR' !! dependent = None)
        ∧ ((∀ r decision, r ∈ releaseRoots versionFile → r ≠ root →
                          releases !! r = Some decision →
                          decision = versionUtils.DECLINE) →
           RW' = releaseRoots versionFile
           ∧ ∀ dependent, dependent ∉ releaseRoots versionFile →
                          (dependent ∉ RW') ∧ RR' !! dependent = None).
Proof.
  intros Hfuel.
  pose proof (answersAsSpecified_within _ specified) as Hwithin.
  destruct (getRelevancy_is_Some _ versionFile Hwithin releases fuel Hfuel)
    as (RW & RR & Hrun).
  exists RW, RR. split; [done|].
  pose proof (getRelevancy_Implicated _ _ _ _ Hrun) as Himp.
  destruct (getRelevancy_Some _ _ _ _ _ _ Hrun) as (-> & _).
  split; [done|split].
  - intros w decision. rewrite lookup_restrict. simpl. case_decide as Hin.
    + rewrite Himp in Hin. tauto.
    + rewrite Himp in Hin. split; [done|tauto].
  - intros root.
    destruct (getRelevancy_is_Some _ versionFile Hwithin (delete root releases) fuel Hfuel)
      as (RW' & RR' & Hrun').
    pose proof (getRelevancy_Implicated _ _ _ _ Hrun') as Himp'.
    destruct (getRelevancy_Some _ _ _ _ _ _ Hrun') as (HRR' & Hsub').
    exists RW', RR'. split; [done|]. split; [done|]. split.
    + intros dependent Hout. rewrite HRR', lookup_restrict.
      rewrite decide_False; [done|]. by rewrite Himp'.
    + intros Hothers.
      assert (RW' = releaseRoots versionFile) as Hroots.
      { apply set_eq. intros w. split; [|by apply Hsub'].
        rewrite Himp'. apply Implicated_roots_only.
        intros r decision Hr. destruct (decide (root = r)) as [->|Hne].
        - by rewrite lookup_delete_eq.
        - rewrite lookup_delete_ne by done. by apply Hothers. }
      split; [done|]. intros dependent Hdep. split; [by rewrite Hroots|].
      rewrite HRR', lookup_restrict, Hroots. by rewrite decide_False.
Qed.

Lemma Implicated_restrict releases (RW : gset string) :
  (∀ w, w ∈ RW ↔ Implicated versionFile releases w) →
  ∀ w, Implicated versionFile
         (filter (λ entry : string * versionUtils.Decision, entry.1 ∈ RW) releases) w
       ↔ Implicated versionFile releases w.
Proof.
  intros HRW w. split.
  - intros Hw. induction Hw as [w Hw | w dep decision _ IH Hdec Hne Hdep Hproj].
    + by apply implicated_root.
    + rewrite lookup_restrict in Hdec. case_decide; [|done].
      by eapply implicated_dependent.
  - intros Hw. induction Hw as [w Hw | w dep decision Hreach IH Hdec Hne Hdep Hproj].
    + by apply implicated_root.
    + eapply implicated_dependent; [exact IH| |done..].
      rewrite lookup_restrict. rewrite decide_True by by apply HRW. done.
Qed.

(** X1: [getRelevancy] is idempotent: run on the [relevantReleases] it has
    returned, it returns the same two collections, so the state that
    [setWorkspaceRelease] stores is displayed with the workspaces it was
    computed for. *)
Theorem getRelevancy_idempotent releases fuel RW RR :
  length (versionUtils.workspaces (project versionFile)) < fuel →
  getRelevancy dependents versionFile fuel releases = Some (RW, RR) →
  getRelevancy dependents versionFile fuel RR = Some (RW, RR).
Proof.
  intros Hfuel Hrun.
  pose proof (answersAsSpecified_within _ specified) as Hwithin.
  pose proof (getRelevancy_Implicated _ _ _ _ Hrun) as Himp.
  destruct (getRelevancy_Some _ _ _ _ _ _ Hrun) as (HRR & _).
  destruct (getRelevancy_is_Some _ versionFile Hwithin RR fuel Hfuel)
    as (RW' & RR' & Hrun').
  pose proof (getRelevancy_Implicated _ _ _ _ Hrun') as Himp'.
  destruct (getRelevancy_Some _ _ _ _ _ _ Hrun') as (HRR' & _).
  assert (RW' = RW) as ->.
  { apply set_eq. intros w. rewrite Himp', Himp, HRR. by apply Implicated_restrict. }
  rewrite Hrun'. f_equal. f_equal. rewrite HRR'. apply map_eq. intros w.
  rewrite lookup_restrict. case_decide as Hin; [done|].
  rewrite HRR, lookup_restrict. by rewrite decide_False.
Qed.

End RelevancySpecified.

(** The function modelled from the specification answers as specified. *)
Lemma getUndecidedDependentWorkspaces_specified :
  versionUtils.answersAsSpecified versionUtils.getUndecidedDependentWorkspaces.
Proof.
  intros proj releases w. rewrite list_elem_of_fmap. split.
  - intros ([w' d] & -> & Hentry).
    apply elem_of_getUndecidedDependentWorkspaces in Hentry as (_ & Hrest). exact Hrest.
  - intros Hrest. exists (w, versionUtils.UNDECIDED). split; [done|].
    apply elem_of_getUndecidedDependentWorkspaces. by split.
Qed.

Lemma getUndecidedDependentWorkspaces_within :
  versionUtils.answersWithinProject versionUtils.getUndecidedDependentWorkspaces.
Proof. apply answersAsSpecified_within, getUndecidedDependentWorkspaces_specified. Qed.

(** ** What a choice changes, and what the form shows of it *)

Section RelevancyChoices.

Context (dependents : versionUtils.Project → versionUtils.Releases
                      → list (Workspace * versionUtils.Decision)).
Context (versionFile : VersionFile).

Hypothesis within : versionUtils.answersWithinProject dependents.

Implicit Types (releases : versionUtils.Releases) (st : LoopState).
Implicit Types (w : string) (entry : string * versionUtils.Decision).

(** An entry of the new state is the choice itself or an entry of the old
    state. *)
Lemma setWorkspaceRelease_entries releases w decision fuel releases' :
  setWorkspaceRelease dependents versionFile fuel releases w decision = Some releases' →
  ∀ w' d', releases' !! w' = Some d' →
           (w' = w ∧ d' = decision ∧ decision ≠ versionUtils.UNDECIDED)
           ∨ (w' ≠ w ∧ releases !! w' = Some d').
Proof.
  unfold setWorkspaceRelease.
  destruct (getRelevancy dependents versionFile fuel _) as [[RW RR]|] eqn:Hrun; [|done].
  intros [= <-]. destruct (getRelevancy_Some _ _ _ _ _ _ Hrun) as (-> & _).
  intros w' d'. rewrite lookup_restrict. destruct (decide (w' ∈ RW)) as [_|_]; [|done].
  destruct (decide (decision ≠ versionUtils.UNDECIDED)) as [Hd|Hd].
  - destruct (decide (w = w')) as [<-|Hne].
    + rewrite lookup_insert_eq. intros [= <-]. by left.
    + rewrite lookup_insert_ne by done. intros Hold. right. by split.
  - destruct (decide (w = w')) as [<-|Hne].
    + by rewrite lookup_delete_eq.
    + rewrite lookup_delete_ne by done. intros Hold. right. by split.
Qed.

Lemma replay_entries releases choices fuel final :
  replay dependents versionFile fuel releases choices = Some final →
  ∀ w d, final !! w = Some d →
         releases !! w = Some d
         ∨ ((w, d) ∈ choices ∧ d ≠ versionUtils.UNDECIDED).
Proof.
  revert releases. induction choices as [|choice rest IH]; intros releases; simpl.
  - intros [= <-] w d Hw. by left.
  - destruct (setWorkspaceRelease dependents versionFile fuel releases choice.1 choice.2)
      as [releases'|] eqn:Hset; [|done].
    intros Hrest w d Hw.
    destruct (IH _ Hrest w d Hw) as [Hmid|[Hin Hd]].
    + destruct (setWorkspaceRelease_entries _ _ _ _ _ Hset w d Hmid)
        as [(-> & -> & Hd)|[_ Hold]]; [|by left].
      right. split; [|done]. destruct choice. left.
    + right. split; [by right|done].
Qed.

(** The workspaces the loop collects are release roots or workspaces of
    the project. *)
Lemma getRelevancy_within fuel releases RW RR :
  getRelevancy dependents versionFile fuel releases = Some (RW, RR) →
  ∀ w, w ∈ RW →
       w ∈ releaseRoots versionFile
       ∨ w ∈ versionUtils.workspaces (project versionFile).
Proof.
  intros Hloop.
  apply (getRelevancy_loop_invariant _ _
           (λ st, ∀ w, w ∈ relevantWorkspaces st →
                       w ∈ releaseRoots versionFile
                       ∨ w ∈ versionUtils.workspaces (project versionFile))) in Hloop
    as (st & Hst & _ & -> & ->); [done| |by left].
  intros st Hst w. rewrite iteration_workspaces.
  intros [Hw|Hw]%elem_of_union; [by apply Hst|]. right.
  apply elem_of_list_to_set, list_elem_of_fmap in Hw as (entry & -> & Hentry).
  by eapply within.
Qed.

(** X4: a choice leaves the decisions of the other workspaces alone: an
    entry of the new state for another workspace is an entry of the old
    state with the same decision, the chosen workspace holds the chosen
    decision or nothing, and no workspace gets an entry it did not have
    except the chosen one. *)
Theorem setWorkspaceRelease_keeps_others releases w decision fuel :
  length (versionUtils.workspaces (project versionFile)) < fuel →
  ∃ releases',
    setWorkspaceRelease dependents versionFile fuel releases w decision = Some releases'
    ∧ (∀ w' d', w' ≠ w → releases' !! w' = Some d' → releases !! w' = Some d')
    ∧ (∀ d', releases' !! w = Some d' → d' = decision)
    ∧ dom releases' ⊆ dom releases ∪ {[w]}.
Proof.
  intros Hfuel.
  destruct (setWorkspaceRelease_is_Some _ _ within releases w decision fuel Hfuel)
    as [releases' Hset].
  exists releases'. split; [done|].
  pose proof (setWorkspaceRelease_entries _ _ _ _ _ Hset) as Hentries.
  split; [|split].
  - intros w' d' Hne Hw'. by destruct (Hentries w' d' Hw') as [(? & _)|[_ ?]].
  - intros d' Hw'. by destruct (Hentries w d' Hw') as [(_ & ? & _)|[? _]].
  - intros w' [d' Hw']%elem_of_dom.
    destruct (Hentries w' d' Hw') as [(-> & _)|[_ Hold]]; [set_solver|].
    apply elem_of_union_l, elem_of_dom. by eexists.
Qed.

(** X5: whatever the user chooses and however often, an entry of the
    resulting state is an entry the state started with or a choice the user
    made, never a choice of UNDECIDED; as the arrow keys choose from
    [strategies], a decision that was not there from the start is one of
    DECLINE, PATCH, MINOR and MAJOR. *)
Theorem choices_store_strategies releases choices fuel :
  length (versionUtils.workspaces (project versionFile)) < fuel →
  ∃ final,
    replay dependents versionFile fuel releases choices = Some final
    ∧ (∀ w d, final !! w = Some d →
              releases !! w = Some d
              ∨ ((w, d) ∈ choices ∧ d ≠ versionUtils.UNDECIDED))
    ∧ (Forall (λ choice, choice.2 ∈ strategies) choices →
       ∀ w d, final !! w = Some d →
              releases !! w = Some d
              ∨ d ∈ [versionUtils.DECLINE; versionUtils.PATCH;
                     versionUtils.MINOR; versionUtils.MAJOR]).
Proof.
  intros Hfuel.
  destruct (replay_is_Some _ _ within releases choices fuel Hfuel) as [final Hfinal].
  exists final. split; [done|].
  pose proof (replay_entries _ _ _ _ Hfinal) as Hentries.
  split; [done|]. intros Hall w d Hw.
  destruct (Hentries w d Hw) as [Hold|[Hin Hd]]; [by left|]. right.
  rewrite Forall_forall in Hall. specialize (Hall _ Hin). simpl in Hall.
  unfold strategies in Hall. apply elem_of_cons in Hall as [->|Hall]; done.
Qed.

(** X6: the two groups of the form split the relevant workspaces: a
    relevant workspace is listed among the release roots or among the
    dependents, never in both; the dependents are workspaces of the project;
    and every decision of [relevantReleases] belongs to a listed workspace. *)
Theorem groups_partition releases fuel :
  length (versionUtils.workspaces (project versionFile)) < fuel →
  ∃ RW RR,
    getRelevancy dependents versionFile fuel releases = Some (RW, RR)
    ∧ releaseRoots versionFile ∪ dependentWorkspaces versionFile RW = RW
    ∧ releaseRoots versionFile ## dependentWorkspaces versionFile RW
    ∧ size (releaseRoots versionFile) + size (dependentWorkspaces versionFile RW)
      = size RW
    ∧ (∀ w, w ∈ dependentWorkspaces versionFile RW →
            w ∈ versionUtils.workspaces (project versionFile))
    ∧ (∀ w d, RR !! w = Some d →
              w ∈ releaseRoots versionFile
              ∨ w ∈ dependentWorkspaces versionFile RW).
Proof.
  intros Hfuel.
  destruct (getRelevancy_is_Some _ _ within releases fuel Hfuel) as (RW & RR & Hrun).
  exists RW, RR. split; [done|].
  destruct (getRelevancy_Some _ _ _ _ _ _ Hrun) as (HRR & Hroots).
  pose proof (getRelevancy_within _ _ _ _ Hrun) as Hproj.
  assert (releaseRoots versionFile ∪ dependentWorkspaces versionFile RW = RW) as Hunion.
  { apply set_eq. intros w. unfold dependentWorkspaces.
    rewrite elem_of_union, elem_of_filter. split.
    - intros [Hw|[_ Hw]]; [by apply Hroots|done].
    - intros Hw. destruct (decide (w ∈ releaseRoots versionFile)); [by left|by right]. }
  assert (releaseRoots versionFile ## dependentWorkspaces versionFile RW) as Hdisjoint.
  { intros w Hw [Hout _]%elem_of_filter. done. }
  split; [done|]. split; [done|]. split; [|split].
  - rewrite <- size_union by done. by rewrite Hunion.
  - intros w [Hout Hw]%elem_of_filter. by destruct (Hproj w Hw).
  - intros w d. rewrite HRR, lookup_restrict. case_decide as Hw; [|done]. intros _.
    rewrite <- Hunion in Hw. by apply elem_of_union in Hw.
Qed.

End RelevancyChoices.

(** ** How decisions propagate *)

Section RelevancyPropagation.

Context (dependents : versionUtils.Project → versionUtils.Releases
                      → list (Workspace * versionUtils.Decision)).
Context (versionFile : VersionFile).

Hypothesis specified : versionUtils.answersAsSpecified dependents.

Implicit Types (releases : versionUtils.Releases) (st : LoopState).
Implicit Types (w : string) (entry : string * versionUtils.Decision).

(** Changing the entry of [w] alone cannot make [w] unreachable: a chain
    from a root to [w] has a first visit of [w], and the part before it does
    not read the entry of [w]. *)
Lemma Implicated_change_at releases releases' w :
  (∀ x, x ≠ w → releases' !! x = releases !! x) →
  ∀ x, Implicated versionFile releases x →
       Implicated versionFile releases' x ∨ Implicated versionFile releases' w.
Proof.
  intros Hsame x Hx.
  induction Hx as [x Hx | x dep decision _ IH Hdec Hne Hdep Hproj].
  - left. by apply implicated_root.
  - destruct IH as [IH|IH]; [|by right].
    destruct (decide (dep = w)) as [->|Hother]; [by right|].
    left. eapply implicated_dependent; [exact IH| |done..]. by rewrite Hsame.
Qed.

(** A DECLINE entry implicates as little as no entry. *)
Lemma Implicated_declined releases w x :
  Implicated versionFile (<[w := versionUtils.DECLINE]> releases) x
  ↔ Implicated versionFile (delete w releases) x.
Proof.
  split; intros Hx;
    induction Hx as [x Hx | x dep decision _ IH Hdec Hne Hdep Hproj];
    try (by apply implicated_root).
  - destruct (decide (w = dep)) as [->|Hother].
    + rewrite lookup_insert_eq in Hdec. congruence.
    + rewrite lookup_insert_ne in Hdec by done.
      eapply implicated_dependent; [exact IH| |done..].
      by rewrite lookup_delete_ne.
  - destruct (decide (w = dep)) as [->|Hother].
    + by rewrite lookup_delete_eq in Hdec.
    + rewrite lookup_delete_ne in Hdec by done.
      eapply implicated_dependent; [exact IH| |done..].
      by rewrite lookup_insert_ne.
Qed.

(** What [getRelevancy] returns, in one statement. *)
Lemma getRelevancy_spec releases fuel :
  length (versionUtils.workspaces (project versionFile)) < fuel →
  ∃ RW,
    getRelevancy dependents versionFile fuel releases
    = Some (RW, filter (λ entry : string * versionUtils.Decision, entry.1 ∈ RW) releases)
    ∧ ∀ w, w ∈ RW ↔ Implicated versionFile releases w.
Proof.
  intros Hfuel.
  pose proof (answersAsSpecified_within _ specified) as Hwithin.
  destruct (getRelevancy_is_Some _ versionFile Hwithin releases fuel Hfuel)
    as (RW & RR & Hrun).
  exists RW. destruct (getRelevancy_Some _ _ _ _ _ _ Hrun) as (<- & _).
  split; [done|]. by eapply getRelevancy_Implicated.
Qed.

(** X7: decisions propagate through the workspaces that are bumped and
    stop at the ones that have declined: a workspace of the project that
    depends on a relevant workspace whose decision is not DECLINE is
    relevant, and declining a workspace gives the same relevant workspaces
    as leaving it without a decision. *)
Theorem decline_stops_propagation releases w fuel :
  length (versionUtils.workspaces (project versionFile)) < fuel →
  ∃ RW RR,
    getRelevancy dependents versionFile fuel (<[w := versionUtils.DECLINE]> releases)
    = Some (RW, RR)
    ∧ getRelevancy dependents versionFile fuel (delete w releases)
      = Some (RW, delete w RR)
    ∧ ∀ bumped dependent decision,
        bumped ∈ RW →
        RR !! bumped = Some decision →
        decision ≠ versionUtils.DECLINE →
        dependent ∈ versionUtils.workspaces (project versionFile) →
        bumped ∈ versionUtils.dependencies (project versionFile) dependent →
        dependent ∈ RW.
Proof.
  intros Hfuel.
  destruct (getRelevancy_spec (<[w := versionUtils.DECLINE]> releases) fuel Hfuel)
    as (RW & Hrun & Himp).
  destruct (getRelevancy_spec (delete w releases) fuel Hfuel) as (RW' & Hrun' & Himp').
  assert (RW' = RW) as ->.
  { apply set_eq. intros x. by rewrite Himp, Himp', Implicated_declined. }
  eexists _, _. split; [exact Hrun|]. split.
  - rewrite Hrun'. f_equal. f_equal. apply map_eq. intros x.
    destruct (decide (w = x)) as [<-|Hne].
    + rewrite lookup_delete_eq, lookup_restrict. case_decide; [|done].
      by rewrite lookup_delete_eq.
    + rewrite lookup_delete_ne, !lookup_restrict by done. case_decide; [|done].
      by rewrite lookup_delete_ne, lookup_insert_ne.
  - intros bumped dependent decision Hin Hdec Hne Hproj Hdep.
    apply Himp. rewrite lookup_restrict in Hdec. case_decide; [|done].
    eapply implicated_dependent; [by apply Himp|done..].
Qed.

(** X8: a workspace shown in the form stays in the form, with the decision
    chosen for it, whatever decision of [strategies] is chosen: the choice
    cannot make its own workspace irrelevant. *)
Theorem choice_stays_displayed releases w decision fuel RW RR :
  length (versionUtils.workspaces (project versionFile)) < fuel →
  getRelevancy dependents versionFile fuel releases = Some (RW, RR) →
  w ∈ RW →
  decision ∈ strategies →
  ∃ releases' RW' RR',
    setWorkspaceRelease dependents versionFile fuel releases w decision = Some releases'
    ∧ getRelevancy dependents versionFile fuel releases' = Some (RW', RR')
    ∧ w ∈ RW'
    ∧ displayedDecision releases' w = decision.
Proof.
  intros Hfuel Hrun Hw Hdecision.
  pose proof (getRelevancy_Implicated _ _ specified _ _ _ _ Hrun) as Himp.
  unfold setWorkspaceRelease.
  set (copy := if decide (decision ≠ versionUtils.UNDECIDED)
               then <[w := decision]> releases else delete w releases).
  destruct (getRelevancy_spec copy fuel Hfuel) as (RWc & Hrunc & Himpc).
  rewrite Hrunc. simpl.
  set (releases' := filter (λ entry : string * versionUtils.Decision, entry.1 ∈ RWc) copy).
  destruct (getRelevancy_spec releases' fuel Hfuel) as (RW' & Hrun' & Himp').
  assert (w ∈ RWc) as Hwc.
  { apply Himpc. apply Himp in Hw.
    destruct (Implicated_change_at releases copy w) with (x := w) as [?|?]; try done.
    intros x Hne. unfold copy. case_decide.
    - by rewrite lookup_insert_ne.
    - by rewrite lookup_delete_ne. }
  eexists _, _, _. split; [done|]. split; [exact Hrun'|]. split.
  - apply Himp'. unfold releases'.
    apply (Implicated_restrict _ _ _ Himpc). by apply Himpc.
  - unfold displayedDecision, releases'. rewrite lookup_restrict, decide_True by done.
    unfold copy. case_decide as Hd.
    + rewrite lookup_insert_eq.
      unfold strategies in Hdecision.
      repeat (apply elem_of_cons in Hdecision as [->|Hdecision]; [done|]).
      by apply elem_of_nil in Hdecision.
    + rewrite lookup_delete_eq. by destruct (decide (decision = versionUtils.UNDECIDED)).
Qed.

(** After a choice, the state of the form supports itself: each of its
    decisions belongs to a release root or to a workspace that the decisions
    of the state implicate. *)
Lemma replay_self_supporting releases choices fuel final :
  choices ≠ [] →
  replay dependents versionFile fuel releases choices = Some final →
  ∀ w d, final !! w = Some d → Implicated versionFile final w.
Proof.
  revert releases.
  induction choices as [|choice rest IH]; intros releases Hne; [done|]. simpl.
  destruct (setWorkspaceRelease dependents versionFile fuel releases choice.1 choice.2)
    as [releases'|] eqn:Hset; [|done].
  destruct rest as [|next rest]; [|by apply IH].
  simpl. intros [= <-] w d Hw.
  unfold setWorkspaceRelease in Hset.
  set (copy := if decide (choice.2 ≠ versionUtils.UNDECIDED)
               then <[choice.1 := choice.2]> releases
               else delete choice.1 releases) in Hset.
  clearbody copy.
  destruct (getRelevancy dependents versionFile fuel copy) as [[RW RR]|] eqn:Hrun; [|done].
  simpl in Hset. injection Hset as <-.
  pose proof (getRelevancy_Implicated _ _ specified _ _ _ _ Hrun) as Himp.
  destruct (getRelevancy_Some _ _ _ _ _ _ Hrun) as (-> & _).
  rewrite lookup_restrict in Hw. case_decide as Hin; [|done].
  apply (Implicated_restrict _ _ _ Himp). by apply Himp.
Qed.

(** A map that bumps at least the same workspaces implicates at least the
    same workspaces. *)
Lemma Implicated_mono releases releases' :
  (∀ x d, releases !! x = Some d → d ≠ versionUtils.DECLINE →
          ∃ d', releases' !! x = Some d' ∧ d' ≠ versionUtils.DECLINE) →
  ∀ x, Implicated versionFile releases x → Implicated versionFile releases' x.
Proof.
  intros Hbumps x Hx.
  induction Hx as [x Hx | x dep decision _ IH Hdec Hne Hdep Hproj].
  - by apply implicated_root.
  - destruct (Hbumps dep decision Hdec Hne) as (d' & Hdec' & Hne').
    by eapply implicated_dependent.
Qed.

(** X17: a choice moves the form in one direction: choosing a release
    (PATCH, MINOR, MAJOR, or any decision other than DECLINE and UNDECIDED)
    keeps every workspace of the form and may add some; choosing DECLINE or
    UNDECIDED adds none and may remove some. *)
Theorem choice_is_monotone releases w decision fuel :
  length (versionUtils.workspaces (project versionFile)) < fuel →
  ∃ RW RR releases' RW' RR',
    getRelevancy dependents versionFile fuel releases = Some (RW, RR)
    ∧ setWorkspaceRelease dependents versionFile fuel releases w decision
      = Some releases'
    ∧ getRelevancy dependents versionFile fuel releases' = Some (RW', RR')
    ∧ (decision ≠ versionUtils.DECLINE → decision ≠ versionUtils.UNDECIDED →
       RW ⊆ RW')
    ∧ (decision = versionUtils.DECLINE ∨ decision = versionUtils.UNDECIDED →
       RW' ⊆ RW).
Proof.
  intros Hfuel.
  destruct (getRelevancy_spec releases fuel Hfuel) as (RW & Hrun & Himp).
  unfold setWorkspaceRelease.
  set (copy := if decide (decision ≠ versionUtils.UNDECIDED)
               then <[w := decision]> releases else delete w releases).
  destruct (getRelevancy_spec copy fuel Hfuel) as (RWc & Hrunc & Himpc).
  rewrite Hrunc. simpl.
  set (releases' := filter (λ entry : string * versionUtils.Decision, entry.1 ∈ RWc) copy).
  destruct (getRelevancy_spec releases' fuel Hfuel) as (RW' & Hrun' & Himp').
  assert (∀ x, x ∈ RW' ↔ Implicated versionFile copy x) as Hform.
  { intros x. rewrite Himp'. by apply Implicated_restrict. }
  eexists _, _, _, _, _. split; [exact Hrun|]. split; [done|]. split; [exact Hrun'|].
  split.
  - intros Hdecline Hundecided x Hx. apply Hform. apply Himp in Hx.
    revert x Hx. apply Implicated_mono. intros x d Hd Hne. unfold copy.
    rewrite decide_True by done. destruct (decide (w = x)) as [<-|Hother].
    + exists decision. by rewrite lookup_insert_eq.
    + exists d. by rewrite lookup_insert_ne.
  - intros Hchoice x Hx. apply Himp. apply Hform in Hx.
    revert x Hx. apply Implicated_mono. intros x d Hd Hne. exists d. split; [|done].
    unfold copy in Hd. case_decide as Hundecided.
    + destruct Hchoice as [->| ->]; [|done].
      destruct (decide (w = x)) as [<-|Hother].
      * rewrite lookup_insert_eq in Hd. congruence.
      * by rewrite lookup_insert_ne in Hd.
    + destruct (decide (w = x)) as [<-|Hother].
      * by rewrite lookup_delete_eq in Hd.
      * by rewrite lookup_delete_ne in Hd.
Qed.

End RelevancyPropagation.

(** ** The summary line, the gems and the focus *)

Lemma length_filter_zero {A} (P : A → Prop) `{!∀ x, Decision (P x)} (l : list A) :
  length (filter P l) = 0 ↔ ∀ x, x ∈ l → ¬ P x.
Proof.
  induction l as [|x l IH].
  - split; [|done]. intros _ x Hx. by apply elem_of_nil in Hx.
  - rewrite filter_cons. destruct (decide (P x)) as [HP|HP]; simpl.
    + split; [done|]. intros Hall. destruct (Hall x); [left|done].
    + rewrite IH. split.
      * intros Hall y [->|Hy]%elem_of_cons; [done|by apply Hall].
      * intros Hall y Hy. apply Hall. by right.
Qed.

(** The counters of [Stats] on a list of workspaces. *)
Lemma foldl_countRelease (releases : versionUtils.Releases) (l : list string)
    (counts : nat * nat) :
  foldl (countRelease releases) counts l
  = (counts.1
     + length (filter (λ w, is_Some (releases !! w)
                            ∧ releases !! w ≠ Some versionUtils.DECLINE) l),
     counts.2 + length (filter (λ w, releases !! w = None) l)).
Proof.
  revert counts. induction l as [|w l IH]; intros [released remaining]; simpl.
  - f_equal; lia.
  - rewrite IH, !filter_cons. unfold countRelease.
    destruct (releases !! w) as [d|] eqn:Hw; repeat case_decide; simpl;
      try (f_equal; lia); exfalso; naive_solver.
Qed.

Lemma length_filter_three (releases : versionUtils.Releases) (l : list string) :
  length (filter (λ w, is_Some (releases !! w)
                       ∧ releases !! w ≠ Some versionUtils.DECLINE) l)
  + length (filter (λ w, releases !! w = None) l)
  + length (filter (λ w, releases !! w = Some versionUtils.DECLINE) l)
  = length l.
Proof.
  induction l as [|w l IH]; [done|]. rewrite !filter_cons.
  destruct (releases !! w) as [d|] eqn:Hw; repeat case_decide; simpl;
    try lia; exfalso; naive_solver.
Qed.

Lemma size_filter_elements (P : string → Prop) `{!∀ w, Decision (P w)}
    (workspaces : gset string) :
  size (filter P workspaces : gset string) = length (filter P (elements workspaces)).
Proof.
  change (size (filter P workspaces : gset string))
    with (length (elements (filter P workspaces : gset string))).
  apply Permutation_length, NoDup_Permutation.
  - apply NoDup_elements.
  - apply NoDup_filter, NoDup_elements.
  - intros w. by rewrite list_elem_of_filter, !elem_of_elements, elem_of_filter.
Qed.

(** X9: the summary line sorts the workspaces of its group in three:
    [remaining] is the number of workspaces without an entry, [release] the
    number of workspaces with an entry other than DECLINE (an UNDECIDED entry
    included), and the declined ones are counted in neither, the three
    numbers adding up to the total; so the two counts add up to the total
    exactly when no workspace of the group has declined, nothing remains
    exactly when every workspace of the group has an entry, and nothing is
    released exactly when every entry of the group is DECLINE. *)
Theorem Stats_counts (releases : versionUtils.Releases) (workspaces : gset string) :
  let releaseCount := (statsCounts releases workspaces).1 in
  let remainingCount := (statsCounts releases workspaces).2 in
  releaseCount
  = size (filter (λ w, is_Some (releases !! w)
                       ∧ releases !! w ≠ Some versionUtils.DECLINE) workspaces)
  ∧ remainingCount = size (filter (λ w, releases !! w = None) workspaces)
  ∧ remainingCount = size (workspaces ∖ dom releases)
  ∧ releaseCount + remainingCount
    + size (filter (λ w, releases !! w = Some versionUtils.DECLINE) workspaces)
    = size workspaces
  ∧ releaseCount + remainingCount ≤ size workspaces
  ∧ (remainingCount = 0 ↔ ∀ w, w ∈ workspaces → is_Some (releases !! w))
  ∧ (releaseCount = 0
     ↔ ∀ w decision, w ∈ workspaces → releases !! w = Some decision →
                     decision = versionUtils.DECLINE)
  ∧ (releaseCount + remainingCount = size workspaces
     ↔ ∀ w, w ∈ workspaces → releases !! w ≠ Some versionUtils.DECLINE).
Proof.
  intros releaseCount remainingCount. subst releaseCount remainingCount.
  unfold statsCounts. rewrite foldl_countRelease. simpl.
  pose proof (length_filter_three releases (elements workspaces)) as Hsum.
  rewrite !size_filter_elements.
  change (size workspaces) with (length (elements workspaces)).
  split; [done|]. split; [done|]. split; [|split; [lia|split; [lia|split; [|split]]]].
  - change (size (workspaces ∖ dom releases))
      with (length (elements (workspaces ∖ dom releases))).
    apply Permutation_length, NoDup_Permutation.
    + apply NoDup_filter, NoDup_elements.
    + apply NoDup_elements.
    + intros w. rewrite list_elem_of_filter, !elem_of_elements, elem_of_difference.
      rewrite not_elem_of_dom. tauto.
  - rewrite length_filter_zero. split.
    + intros Hall w Hw. destruct (releases !! w) eqn:Hd; [by eexists|].
      destruct (Hall w); [by apply elem_of_elements|done].
    + intros Hall w Hw%elem_of_elements Hnone. destruct (Hall w Hw). congruence.
  - rewrite length_filter_zero. split.
    + intros Hall w decision Hw Hd.
      destruct (decide (decision = versionUtils.DECLINE)) as [|Hne]; [done|].
      destruct (Hall w); [by apply elem_of_elements|]. split; [by eexists|congruence].
    + intros Hall w Hw%elem_of_elements [[d Hd] Hne]. apply Hne.
      by rewrite Hd, (Hall w d Hw Hd).
  - assert (length (filter (λ w, releases !! w = Some versionUtils.DECLINE)
                      (elements workspaces)) = 0
            ↔ ∀ w, w ∈ workspaces → releases !! w ≠ Some versionUtils.DECLINE) as <-.
    { rewrite length_filter_zero. split.
      - intros Hall w Hw. by apply Hall, elem_of_elements.
      - intros Hall w Hw%elem_of_elements. by apply Hall. }
    lia.
Qed.

(** X10: [Undecided] lights one gem, the one of the displayed decision,
    when that decision is one of [strategies]; for a workspace without an
    entry it is the gem of UNDECIDED; a stored prerelease increment or
    explicit version lights none. *)
Theorem one_gem_active (releases : versionUtils.Releases) (w : string) :
  let decision := displayedDecision releases w in
  let active := filter (λ gem, gem.2 = true) (gems decision) in
  active = (if decide (decision ∈ strategies) then [(decision, true)] else [])
  ∧ (releases !! w = None → active = [(versionUtils.UNDECIDED, true)])
  ∧ (releases !! w = Some versionUtils.PRERELEASE → active = [])
  ∧ (∀ version, version ≠ "" →
                releases !! w = Some (versionUtils.Explicit version) → active = []).
Proof.
  intros decision active. subst active.
  assert (∀ d, filter (λ gem : versionUtils.Decision * bool, gem.2 = true) (gems d)
               = if decide (d ∈ strategies) then [(d, true)] else []) as Hgems.
  { intros d. unfold gems, strategies.
    destruct d; try (rewrite decide_True by set_solver; reflexivity).
    - rewrite decide_False; [reflexivity|].
      intros Hin. repeat (apply elem_of_cons in Hin as [?|Hin]; [done|]).
      by apply elem_of_nil in Hin.
    - rewrite decide_False; [reflexivity|].
      intros Hin. repeat (apply elem_of_cons in Hin as [?|Hin]; [done|]).
      by apply elem_of_nil in Hin. }
  split; [apply Hgems|]. subst decision. unfold displayedDecision.
  split; [|split].
  - intros ->. apply Hgems.
  - intros ->. apply Hgems.
  - intros version Hne ->. simpl. apply String.eqb_neq in Hne. rewrite Hne. simpl.
    rewrite Hgems. rewrite decide_False; [done|].
    unfold strategies. intros Hin.
    repeat (apply elem_of_cons in Hin as [?|Hin]; [done|]).
    by apply elem_of_nil in Hin.
Qed.

Lemma focusAfter_balance (requests : list FocusRequest) (focus : Z) :
  foldl handleFocusRequest focus requests
  = (focus + Z.of_nat (length (filter (λ request, request = AFTER) requests))
     - Z.of_nat (length (filter (λ request, request = BEFORE) requests)))%Z.
Proof.
  revert focus. induction requests as [|request requests IH]; intros focus; simpl.
  - lia.
  - rewrite IH, !filter_cons. destruct request; simpl; lia.
Qed.

(** X11: the focus counter is the number of AFTER requests minus the number
    of BEFORE requests; the group of the release roots is active when it is
    even, the group of the dependents when it is odd and positive.  The two
    groups are never both active, and while the counter is negative and odd,
    as after a first BEFORE request, neither is. *)
Theorem focus_selects_group (requests : list FocusRequest) :
  let focus := focusAfter requests in
  focus = (Z.of_nat (length (filter (λ request, request = AFTER) requests))
           - Z.of_nat (length (filter (λ request, request = BEFORE) requests)))%Z
  ∧ rootsActive focus = Z.even focus
  ∧ dependentsActive focus = Z.odd focus && bool_decide (0 < focus)%Z
  ∧ rootsActive focus && dependentsActive focus = false
  ∧ (rootsActive focus || dependentsActive focus = false
     ↔ (focus < 0)%Z ∧ Z.odd focus = true).
Proof.
  intros focus.
  assert (∀ z : Z, rootsActive z = Z.even z) as Hroots.
  { intros z. unfold rootsActive. destruct (Z.even z) eqn:Hz.
    - apply Z.even_spec in Hz as [m ->]. apply bool_decide_eq_true.
      Z.quot_rem_to_equations. lia.
    - rewrite <- Z.negb_odd in Hz. apply negb_false_iff in Hz.
      apply Z.odd_spec in Hz as [m ->].
      apply bool_decide_eq_false. Z.quot_rem_to_equations. lia. }
  assert (∀ z : Z, dependentsActive z = Z.odd z && bool_decide (0 < z)%Z) as Hdependents.
  { intros z. unfold dependentsActive. destruct (Z.odd z) eqn:Hz; simpl.
    - apply Z.odd_spec in Hz as [m ->]. apply bool_decide_ext.
      Z.quot_rem_to_equations. lia.
    - rewrite <- Z.negb_even in Hz. apply negb_false_iff in Hz.
      apply Z.even_spec in Hz as [m ->].
      apply bool_decide_eq_false. Z.quot_rem_to_equations. lia. }
  split; [|split; [done|split; [done|]]].
  - subst focus. unfold focusAfter. rewrite focusAfter_balance. lia.
  - rewrite Hroots, Hdependents, <- Z.negb_odd.
    clearbody focus. destruct (Z.odd focus) eqn:Hodd; simpl; (split; [done|]).
    + assert (focus ≠ 0%Z) by (intros ->; done).
      case_bool_decide; simpl; split; try done; try (intros [? _]; lia).
      intros _. split; [lia|done].
    + split; [done|]. by intros [_ ?].
Qed.

(** * The apply command *)

Section Apply.

Import VersionApplyCommand.

Implicit Types (this : Options) (env : Collaborators).

Ltac decide_membership :=
  repeat match goal with
    | H : negb _ = true |- _ => apply negb_true_iff in H
    | H : negb _ = false |- _ => apply negb_false_iff in H
    end;
  repeat (rewrite elem_of_cons in * || rewrite elem_of_nil in * );
  intuition (discriminate || congruence).

(** The identifier is [null] or a non-empty string, so [!prerelease] tests
    it against [null]. *)
Lemma prereleaseIdentifier_cases (v : JsValue) :
  (prereleaseIdentifier v = JsNull ∧ truthy v = false)
  ∨ (∃ s, prereleaseIdentifier v = JsString s ∧ s ≠ "" ∧ truthy v = true).
Proof.
  destruct v as [| |[]|s]; simpl; try (by left).
  - right. by exists "rc.%n".
  - unfold prereleaseIdentifier. simpl. destruct (String.eqb s "") eqn:Hs; simpl.
    + by left.
    + right. exists s. apply String.eqb_neq in Hs. done.
Qed.

Lemma truthy_prereleaseIdentifier (v : JsValue) :
  truthy (prereleaseIdentifier v) = false ↔ prereleaseIdentifier v = JsNull.
Proof.
  destruct (prereleaseIdentifier_cases v) as [[-> _]|(s & -> & Hs & _)]; simpl; [done|].
  apply String.eqb_neq in Hs. rewrite Hs. done.
Qed.

Lemma size_zero_empty (allReleases : gmap string versionUtils.Decision) :
  size allReleases = 0 ↔ allReleases = ∅.
Proof. apply map_size_empty_iff. Qed.

(** Unfolds a run and splits it along every answer and every test. *)
Ltac unfold_run :=
  unfold execute, reportCallback, streamReport, emit, call,
         mbind, Run_bind, mret, Run_ret, throw; simpl.

Ltac split_run :=
  repeat match goal with
    | |- context [bool_decide ?P] => destruct (bool_decide_reflect P); simpl
    | |- context [match ?x with _ => _ end] =>
        lazymatch x with
        | context [match _ with _ => _ end] => fail
        | _ => destruct x eqn:?; simpl
        end
    end.

(** C3, as the code has it: [clearVersionFiles] is not called under
    [--dry-run] nor when a prerelease identifier is in force; it is called
    exactly when the run is
    not dry, the identifier is [null] and the resolved map is not empty,
    in the runs where [applyReleases] has returned. *)
Theorem clearVersionFiles_guard this env :
  let calls := events (execute this env initial).1 in
  let identifier := prereleaseIdentifier (prerelease this) in
  (dryRun this = true ∨ identifier ≠ JsNull → ClearVersionFiles ∉ calls)
  ∧ (ClearVersionFiles ∈ calls →
     dryRun this = false ∧ identifier = JsNull
     ∧ ∃ allReleases, resolveVersionFiles env JsNull = Returns allReleases
                      ∧ allReleases ≠ ∅
                      ∧ applyReleases env allReleases = Returns ())
  ∧ (∀ allReleases,
       workspace env ≠ None →
       resolveVersionFiles env identifier = Returns allReleases →
       applyReleases env allReleases = Returns () →
       (ClearVersionFiles ∈ calls
        ↔ dryRun this = false ∧ identifier = JsNull ∧ allReleases ≠ ∅)).
Proof.
  intros calls identifier. subst calls.
  pose proof (truthy_prereleaseIdentifier (prerelease this)) as Hnull.
  unfold execute, reportCallback. fold identifier. fold identifier in Hnull.
  clearbody identifier.
  split; [|split].
  - intros Hguard. unfold_run. split_run; decide_membership.
  - unfold_run. split_run; intros Hin; try solve [exfalso; decide_membership].
    all: repeat match goal with
           | H : negb _ = true |- _ => apply negb_true_iff in H
           | H : truthy ?v = false |- _ => apply Hnull in H; subst v
           | H : applyReleases _ _ = Returns ?u |- _ => is_var u; destruct u
           | H : size _ ≠ 0 |- _ => rewrite size_zero_empty in H
           end.
    all: split; [done|split; [done|eauto]].
  - intros allReleases Hworkspace Hresolve Happly. unfold_run.
    destruct (workspace env); [clear Hworkspace|done]. rewrite Hresolve. simpl.
    rewrite <- size_zero_empty.
    destruct (bool_decide_reflect (size allReleases = 0)); simpl;
      [decide_membership|].
    rewrite Happly. simpl. split_run; decide_membership.
Qed.

Lemma clearVersionFiles_guard_witness :
  ClearVersionFiles
    ∈ events (execute (applyOptions false JsUndefined)
                (applyEnv {["A" := versionUtils.MINOR]}) initial).1
  ∧ (ClearVersionFiles
      ∉ events (execute (applyOptions false (JsString "rc.%n"))
                  (applyEnv {["A" := versionUtils.MINOR]}) initial).1).
Proof.
  split.
  - apply (proj2 (proj2 (clearVersionFiles_guard (applyOptions false JsUndefined)
                           (applyEnv {["A" := versionUtils.MINOR]})))
             {["A" := versionUtils.MINOR]}); try done.
  - apply (proj1 (clearVersionFiles_guard (applyOptions false (JsString "rc.%n"))
                    (applyEnv {["A" := versionUtils.MINOR]}))).
    right. vm_compute. discriminate.
Defined.

(** C3, as stated, fails: in a run that is not dry, with no prerelease
    identifier and a resolved map that is not empty, [clearVersionFiles] is
    not called when [applyReleases] throws. *)
Lemma clearVersionFiles_skipped_when_apply_throws :
  dryRun (applyOptions false JsUndefined) = false
  ∧ prereleaseIdentifier (prerelease (applyOptions false JsUndefined)) = JsNull
  ∧ resolveVersionFiles (applyEnvFailing {["A" := versionUtils.MINOR]}) JsNull
    = Returns {["A" := versionUtils.MINOR]}
  ∧ ({["A" := versionUtils.MINOR]} : gmap string versionUtils.Decision) ≠ ∅
  ∧ ClearVersionFiles
      ∉ events (execute (applyOptions false JsUndefined)
                  (applyEnvFailing {["A" := versionUtils.MINOR]}) initial).1.
Proof. repeat split; compute_done. Qed.

(** C5: when [resolveVersionFiles] answers an empty map, the run reports
    the warning and returns exit code 0; it has called neither
    [applyReleases], nor [clearVersionFiles], nor the installer. *)
Theorem nothing_to_apply this env :
  is_Some (workspace env) →
  resolveVersionFiles env (prereleaseIdentifier (prerelease this)) = Returns ∅ →
  let run := execute this env initial in
  run.2 = Returns 0%Z
  ∧ events run.1
    = [RestoreInstallState;
       ResolveVersionFiles (prereleaseIdentifier (prerelease this));
       ReportWarning "The workspace doesn't seem to require a version bump."]
  ∧ maps run.1 = maps initial
  ∧ (∀ allReleases, ApplyReleases allReleases ∉ events run.1)
  ∧ (ClearVersionFiles ∉ events run.1)
  ∧ (Install ∉ events run.1).
Proof.
  intros [w Hw] Hresolve run. subst run. unfold_run. rewrite Hw, Hresolve. simpl.
  rewrite bool_decide_eq_true_2 by apply map_size_empty. simpl.
  split; [done|split; [done|split; [done|split; [|split]]]];
    try intros allReleases; decide_membership.
Qed.

Lemma nothing_to_apply_witness :
  let run := execute (applyOptions false JsUndefined) (applyEnv ∅) initial in
  run.2 = Returns 0%Z
  ∧ events run.1
    = [RestoreInstallState;
       ResolveVersionFiles JsNull;
       ReportWarning "The workspace doesn't seem to require a version bump."]
  ∧ maps run.1 = maps initial
  ∧ (∀ allReleases, ApplyReleases allReleases ∉ events run.1)
  ∧ (ClearVersionFiles ∉ events run.1)
  ∧ (Install ∉ events run.1).
Proof.
  apply (nothing_to_apply (applyOptions false JsUndefined) (applyEnv ∅)).
  - by exists "A".
  - reflexivity.
Defined.

(** C6, as the code has it: the identifier is the string given to
    [--prerelease] when that string is not empty, ['rc.%n'] when the flag is
    given as the boolean [true], and [null] when the flag is absent, given
    as [false], or given the empty string; that identifier is what
    [resolveVersionFiles] receives. *)
Theorem prerelease_identifier_passed :
  (∀ s, s ≠ "" → prereleaseIdentifier (JsString s) = JsString s)
  ∧ prereleaseIdentifier (JsString "") = JsNull
  ∧ prereleaseIdentifier (JsBoolean true) = JsString "rc.%n"
  ∧ prereleaseIdentifier (JsBoolean false) = JsNull
  ∧ prereleaseIdentifier JsUndefined = JsNull
  ∧ ∀ this env,
      (∀ passed, ResolveVersionFiles passed ∈ events (execute this env initial).1 →
                 passed = prereleaseIdentifier (prerelease this))
      ∧ (is_Some (workspace env) →
         ResolveVersionFiles (prereleaseIdentifier (prerelease this))
           ∈ events (execute this env initial).1).
Proof.
  repeat split; try done.
  - intros s Hs. unfold prereleaseIdentifier. simpl.
    apply String.eqb_neq in Hs. by rewrite Hs.
  - intros passed. unfold_run. split_run; decide_membership.
  - intros [w Hw]. unfold_run. rewrite Hw. simpl. split_run; decide_membership.
Qed.

Lemma prerelease_identifier_passed_witness :
  prereleaseIdentifier (JsString "beta.%n") = JsString "beta.%n"
  ∧ ResolveVersionFiles (JsString "beta.%n")
      ∈ events (execute (applyOptions false (JsString "beta.%n"))
                  (applyEnv {["A" := versionUtils.MINOR]}) initial).1.
Proof.
  split.
  - by apply (proj1 prerelease_identifier_passed).
  - apply (proj2 (proj2 (proj2 (proj2 (proj2 (proj2 prerelease_identifier_passed))))
                    (applyOptions false (JsString "beta.%n"))
                    (applyEnv {["A" := versionUtils.MINOR]}))).
    by exists "A".
Defined.

(** C6, as stated, fails: an empty string given to [--prerelease] is not
    passed on as the identifier, and the boolean form [false] does not
    select the default template; both give [null]. *)
Lemma prerelease_empty_string_is_null :
  prereleaseIdentifier (JsString "") = JsNull
  ∧ prereleaseIdentifier (JsString "") ≠ JsString ""
  ∧ prereleaseIdentifier (JsBoolean false) = JsNull
  ∧ prereleaseIdentifier (JsBoolean false) ≠ JsString "rc.%n".
Proof. repeat split; done. Qed.

(** X3: under [--dry-run] the run stops after [applyReleases]: it neither
    clears the version files, nor writes the separator, nor installs. *)
Theorem dry_run_stops_after_apply this env :
  dryRun this = true →
  let calls := events (execute this env initial).1 in
  (ClearVersionFiles ∉ calls) ∧ (ReportSeparator ∉ calls) ∧ (Install ∉ calls).
Proof.
  intros Hdry calls. subst calls.
  split; [|split]; unfold_run; rewrite Hdry; simpl; split_run; decide_membership.
Qed.

Lemma dry_run_stops_after_apply_witness :
  let calls := events (execute (applyOptions true JsUndefined)
                         (applyEnv {["A" := versionUtils.MINOR]}) initial).1 in
  (ClearVersionFiles ∉ calls) ∧ (ReportSeparator ∉ calls) ∧ (Install ∉ calls).
Proof.
  apply (dry_run_stops_after_apply (applyOptions true JsUndefined)
           (applyEnv {["A" := versionUtils.MINOR]})).
  reflexivity.
Defined.

(** X12: [applyReleases] is only ever handed the map that
    [resolveVersionFiles] has returned for the identifier of the run, and
    never an empty one. *)
Theorem applyReleases_only_resolved this env allReleases :
  ApplyReleases allReleases ∈ events (execute this env initial).1 →
  is_Some (workspace env)
  ∧ resolveVersionFiles env (prereleaseIdentifier (prerelease this)) = Returns allReleases
  ∧ allReleases ≠ ∅.
Proof.
  unfold execute, reportCallback.
  set (identifier := prereleaseIdentifier (prerelease this)). clearbody identifier.
  unfold_run. destruct (workspace env) as [w|]; simpl; [|decide_membership].
  destruct (resolveVersionFiles env identifier) as [resolved| |] eqn:Hresolve; simpl;
    [|decide_membership..].
  destruct (bool_decide_reflect (size resolved = 0)) as [Hsize|Hsize]; simpl;
    [decide_membership|].
  rewrite size_zero_empty in Hsize.
  assert (allReleases = resolved → is_Some (Some w) ∧ Returns resolved = Returns allReleases
                                   ∧ allReleases ≠ ∅) as Hgoal.
  { intros ->. split; [by eexists|done]. }
  split_run; intros Hin; apply Hgoal; decide_membership.
Qed.

(** X13: the installer runs only at the end of a successful run: not under
    [--dry-run], after [applyReleases] has returned on a non-empty map and,
    when no prerelease identifier is in force, after [clearVersionFiles] has
    returned too.  The calls of such a run are the six of a full run, without
    [clearVersionFiles] for a prerelease, followed by the report of the
    error when the installer throws. *)
Theorem install_follows_success this env :
  let calls := events (execute this env initial).1 in
  let identifier := prereleaseIdentifier (prerelease this) in
  Install ∈ calls →
  dryRun this = false
  ∧ ∃ allReleases,
      resolveVersionFiles env identifier = Returns allReleases
      ∧ allReleases ≠ ∅
      ∧ applyReleases env allReleases = Returns ()
      ∧ (identifier = JsNull → clearVersionFiles env = Returns ())
      ∧ calls
        = [RestoreInstallState; ResolveVersionFiles identifier; ApplyReleases allReleases]
          ++ (if decide (identifier = JsNull) then [ClearVersionFiles] else [])
          ++ [ReportSeparator; Install]
          ++ match install env with
             | Throws error => [ReportError error]
             | _ => []
             end.
Proof.
  intros calls identifier. subst calls.
  pose proof (truthy_prereleaseIdentifier (prerelease this)) as Hnull.
  unfold execute, reportCallback. fold identifier. fold identifier in Hnull.
  clearbody identifier.
  unfold_run. destruct (workspace env) as [w|]; simpl; [|decide_membership].
  destruct (resolveVersionFiles env identifier) as [resolved| |] eqn:Hresolve; simpl;
    [|decide_membership..].
  destruct (bool_decide_reflect (size resolved = 0)) as [Hsize|Hsize]; simpl;
    [decide_membership|].
  rewrite size_zero_empty in Hsize.
  destruct (applyReleases env resolved) as [[]| |] eqn:Happly; simpl;
    [|decide_membership..].
  destruct (dryRun this); simpl; [decide_membership|].
  destruct (truthy identifier) eqn:Htruthy; simpl.
  - assert (identifier ≠ JsNull) as Hne by (intros ->; done).
    intros _. split; [done|]. exists resolved. rewrite decide_False by done.
    repeat (split; [done|]). by destruct (install env).
  - destruct Hnull as [Hnull _]. rewrite (Hnull eq_refl).
    destruct (clearVersionFiles env) as [[]| |] eqn:Hclear; simpl;
      [|decide_membership..].
    intros _. split; [done|]. exists resolved.
    repeat (split; [done|]). by destruct (install env).
Qed.

End Apply.

(** * The check command *)

Section Check.

Import VersionCheckCommand.

Implicit Types (env : Collaborators) (world : World) (user : Session).
Implicit Types (versionFile : VersionFile).

Ltac unfold_prim :=
  unfold emit, call, newMap, readMap, clearMap, setMap, throw, outOfFuel,
         mbind, Run_bind, mret, Run_ret; simpl.

(** ** The store of maps *)

Lemma newMap_fresh world (entries : gmap string versionUtils.Decision) :
  maps world !! fresh (dom (maps world)) = None.
Proof. apply not_elem_of_dom, is_fresh. Qed.

Lemma foldl_set_lookup (l : list (string * versionUtils.Decision))
    (acc : gmap string versionUtils.Decision) (w : string) :
  NoDup l.*1 →
  foldl (λ m entry, <[entry.1 := entry.2]> m) acc l !! w
  = match (list_to_map l : gmap string versionUtils.Decision) !! w with
    | Some decision => Some decision
    | None => acc !! w
    end.
Proof.
  revert acc. induction l as [|[w' d] l IH]; intros acc Hdup.
  - simpl. by rewrite lookup_empty.
  - rewrite fmap_cons in Hdup. apply NoDup_cons in Hdup as [Hnew Hdup].
    change (foldl ?f acc ((w', d) :: l)) with (foldl f (<[w' := d]> acc) l).
    rewrite IH by done.
    change (list_to_map ((w', d) :: l) : gmap string versionUtils.Decision)
      with (<[w' := d]> (list_to_map l : gmap string versionUtils.Decision)).
    destruct (decide (w' = w)) as [->|Hne].
    + rewrite (not_elem_of_list_to_map_1 l w) by done. by rewrite !lookup_insert_eq.
    + by rewrite !lookup_insert_ne by done.
Qed.

(** Setting every entry of [decisions] in an empty map rebuilds it. *)
Lemma foldl_set_entries (decisions : gmap string versionUtils.Decision) :
  foldl (λ m entry, <[entry.1 := entry.2]> m) ∅ (map_to_list decisions) = decisions.
Proof.
  apply map_eq. intros w. rewrite foldl_set_lookup by apply NoDup_fst_map_to_list.
  rewrite list_to_map_to_list, lookup_empty. by destruct (decisions !! w).
Qed.

Lemma forEach_setMap (ref : positive) (l : list (string * versionUtils.Decision))
    world (current : gmap string versionUtils.Decision) :
  maps world !! ref = Some current →
  forEach l (λ entry, setMap ref entry.1 entry.2) world
  = ({| events := events world;
        maps := <[ref := foldl (λ m entry, <[entry.1 := entry.2]> m) current l]>
                  (maps world) |},
     Returns ()).
Proof.
  revert world current. induction l as [|entry l IH]; intros world current Hcur; simpl.
  - unfold_prim. rewrite insert_id by done. by destruct world.
  - unfold_prim. rewrite (lookup_total_correct _ _ _ Hcur).
    rewrite (IH _ (<[entry.1 := entry.2]> current)) by apply lookup_insert_eq.
    simpl. by rewrite insert_insert_eq.
Qed.

(** ** The form *)

(** A rendering reads the store and leaves it as it is. *)
Lemma renderApp_run dependents fuel versionFile state world :
  ∃ outcome,
    renderApp dependents fuel versionFile state world = (world, outcome)
    ∧ (outcome = Returns () ∨ outcome = OutOfFuel)
    ∧ (versionUtils.answersWithinProject dependents →
       length (versionUtils.workspaces (project versionFile)) < fuel →
       outcome = Returns ()).
Proof.
  unfold renderApp. unfold_prim.
  destruct (getRelevancy dependents versionFile fuel (maps world !!! state))
    as [result|] eqn:Hrun.
  - exists (Returns ()). by eauto.
  - exists OutOfFuel. split; [done|]. split; [by right|]. intros Hwithin Hfuel.
    destruct (getRelevancy_is_Some dependents versionFile Hwithin
                (maps world !!! state) fuel Hfuel) as (RW & RR & Hsome).
    congruence.
Qed.

(** A choice allocates the new state and touches no existing map. *)
Lemma setDecision_run dependents fuel versionFile state choice world :
  ∃ world' outcome,
    setDecision dependents fuel versionFile state choice world = (world', outcome)
    ∧ events world' = events world
    ∧ maps world ⊆ maps world'
    ∧ (∀ error, outcome ≠ Throws error)
    ∧ (∀ state', outcome = Returns state' →
         maps world !! state' = None
         ∧ ∃ releases',
             setWorkspaceRelease dependents versionFile fuel (maps world !!! state)
               choice.1 choice.2
             = Some releases'
             ∧ maps world' !! state' = Some releases')
    ∧ (versionUtils.answersWithinProject dependents →
       length (versionUtils.workspaces (project versionFile)) < fuel →
       ∃ state', outcome = Returns state').
Proof.
  unfold setDecision. unfold_prim.
  destruct (setWorkspaceRelease dependents versionFile fuel (maps world !!! state)
              choice.1 choice.2) as [releases'|] eqn:Hset.
  - unfold_prim.
    destruct (renderApp_run dependents fuel versionFile (fresh (dom (maps world)))
                {| events := events world;
                   maps := <[fresh (dom (maps world)) := releases']> (maps world) |})
      as (outcome & -> & Hcases & Henough).
    pose proof (newMap_fresh world releases') as Hfresh.
    destruct Hcases as [-> | ->].
    + eexists _, _. split; [done|]. simpl. split; [done|].
      split; [by apply insert_subseteq|]. split; [done|]. split.
      * intros state' [= <-]. split; [done|]. exists releases'. split; [done|].
        apply lookup_insert_eq.
      * intros _ _. by eexists.
    + eexists _, _. split; [done|]. simpl. split; [done|].
      split; [by apply insert_subseteq|]. split; [done|]. split; [done|].
      intros Hwithin Hfuel. by specialize (Henough Hwithin Hfuel).
  - eexists _, _. split; [done|]. split; [done|]. split; [done|]. split; [done|].
    split; [done|]. intros Hwithin Hfuel.
    destruct (setWorkspaceRelease_is_Some dependents versionFile Hwithin
                (maps world !!! state) choice.1 choice.2 fuel Hfuel) as [r Hr].
    congruence.
Qed.

Lemma interact_run dependents fuel versionFile todo state world releases :
  maps world !! state = Some releases →
  ∃ world' outcome,
    interact dependents fuel versionFile state todo world = (world', outcome)
    ∧ events world' = events world
    ∧ maps world ⊆ maps world'
    ∧ (∀ error, outcome ≠ Throws error)
    ∧ (∀ final, outcome = Returns final →
         (final = state ∨ maps world !! final = None)
         ∧ ∃ decisions, replay dependents versionFile fuel releases todo = Some decisions
                        ∧ maps world' !! final = Some decisions)
    ∧ (versionUtils.answersWithinProject dependents →
       length (versionUtils.workspaces (project versionFile)) < fuel →
       ∃ final, outcome = Returns final).
Proof.
  revert state world releases.
  induction todo as [|choice todo IH]; intros state world releases Hstate; simpl.
  - unfold_prim. eexists _, _. split; [done|]. split; [done|]. split; [done|].
    split; [done|]. split; [|by eauto].
    intros final [= <-]. split; [by left|]. by exists releases.
  - unfold mbind, Run_bind.
    destruct (setDecision_run dependents fuel versionFile state choice world)
      as (world1 & outcome1 & -> & Hev1 & Hsub1 & Hthrow1 & Hret1 & Hfuel1).
    destruct outcome1 as [state'| |].
    + destruct (Hret1 state' eq_refl) as (Hfresh & releases' & Hset & Hstate').
      destruct (IH state' world1 releases' Hstate')
        as (world2 & outcome2 & -> & Hev2 & Hsub2 & Hthrow2 & Hret2 & Hfuel2).
      eexists _, _. split; [done|]. split; [congruence|].
      split; [by etrans|]. split; [done|]. split; [|done].
      intros final Hfinal. destruct (Hret2 final Hfinal) as (Hwhere & decisions & Hreplay & Hfin).
      split.
      * right. destruct Hwhere as [->|Hnone]; [done|].
        by eapply lookup_weaken_None.
      * exists decisions. split; [|done].
        rewrite (lookup_total_correct _ _ _ Hstate) in Hset. by rewrite Hset.
    + by destruct (Hthrow1 error).
    + eexists _, _. split; [done|]. split; [done|]. split; [done|]. split; [done|].
      split; [done|]. intros Hwithin Hfuel. by destruct (Hfuel1 Hwithin Hfuel).
Qed.

Lemma renderForm_run dependents fuel versionFile user world :
  ∃ world' outcome,
    renderForm dependents fuel versionFile user world = (world', outcome)
    ∧ events world' = events world ++ [RenderForm]
    ∧ maps world ⊆ maps world'
    ∧ (∀ error, outcome ≠ Throws error)
    ∧ (confirmed user = false → ∀ final, outcome ≠ Returns (Some final))
    ∧ (∀ final, outcome = Returns (Some final) →
         confirmed user = true
         ∧ maps world !! final = None
         ∧ ∃ decisions,
             replay dependents versionFile fuel (maps world !!! releases versionFile) (choices user)
             = Some decisions
             ∧ maps world' !! final = Some decisions)
    ∧ (versionUtils.answersWithinProject dependents →
       length (versionUtils.workspaces (project versionFile)) < fuel →
       ∃ final, outcome = Returns (if confirmed user then Some final else None)).
Proof.
  unfold renderForm. unfold_prim.
  set (world0 := {| events := events world ++ [RenderForm]; maps := maps world |}).
  set (state := fresh (dom (maps world))).
  set (initial := maps world !!! releases versionFile).
  set (world1 := {| events := events world ++ [RenderForm];
                    maps := <[state := initial]> (maps world) |}).
  assert (maps world !! state = None) as Hfresh by apply (newMap_fresh world initial).
  destruct (renderApp_run dependents fuel versionFile state world1)
    as (outcome0 & -> & Hcases & Henough).
  destruct Hcases as [-> | ->].
  - destruct (interact_run dependents fuel versionFile (choices user) state world1 initial)
      as (world2 & outcome & -> & Hev & Hsub & Hthrow & Hret & Hfuel);
      [apply lookup_insert_eq|].
    assert (maps world ⊆ maps world2) as Hsub'.
    { etrans; [|exact Hsub]. by apply insert_subseteq. }
    destruct outcome as [final| |].
    + destruct (Hret final eq_refl) as (Hwhere & decisions & Hreplay & Hfin).
      assert (maps world !! final = None) as Hnew.
      { destruct Hwhere as [->|Hnone]; [done|].
        eapply lookup_weaken_None; [exact Hnone|]. by apply insert_subseteq. }
      eexists _, _. split; [done|]. split; [done|]. split; [done|]. split; [done|].
      split; [|split].
      * intros Hno f. by rewrite Hno.
      * intros f Hf. destruct (confirmed user); [|done]. injection Hf as <-. eauto.
      * intros _ _. by exists final.
    + by destruct (Hthrow error).
    + eexists _, _. split; [done|]. split; [done|]. split; [done|]. split; [done|].
      split; [done|]. split; [done|]. intros Hwithin Hf. by destruct (Hfuel Hwithin Hf).
  - eexists _, _. split; [done|]. simpl. split; [done|].
    split; [by apply insert_subseteq|]. split; [done|]. split; [done|]. split; [done|].
    intros Hwithin Hf. by specialize (Henough Hwithin Hf).
Qed.

(** ** [executeInteractive] *)

Lemma size_roots_zero (roots : gset string) : size roots = 0 ↔ roots = ∅.
Proof. rewrite size_empty_iff. by unfold_leibniz. Qed.

(** The world in which the version file has just been opened. *)
Local Abbreviation opened world :=
  {| events := events world ++ [CheckRequirements; RestoreInstallState; OpenVersionFile];
     maps := maps world |}.

(** The run up to the form, when there is something to check. *)
Lemma executeInteractive_reaches_form fuel env world versionFile :
  checkRequirements env = Returns () →
  is_Some (workspace env) →
  openVersionFile env = Returns (Some versionFile) →
  releaseRoots versionFile ≠ ∅ →
  is_Some (root versionFile) →
  executeInteractive fuel env world
  = match renderForm (getUndecidedDependentWorkspaces env) fuel versionFile
            (session env) (opened world) with
    | (world1, Returns None) => (world1, Returns (Some 1%Z))
    | (world1, Returns (Some decisions)) =>
        (clearMap (releases versionFile) ;;
         entries ← readMap decisions;
         forEach (map_to_list entries) (λ entry,
           setMap (releases versionFile) entry.1 entry.2) ;;
         saved ← readMap (releases versionFile);
         call (SaveAll saved) (saveAll env) ;;
         mret None) world1
    | (world1, Throws error) => (world1, Throws error)
    | (world1, OutOfFuel) => (world1, OutOfFuel)
    end.
Proof.
  intros Hreq [w Hw] Hopen Hroots [r Hr].
  unfold executeInteractive. unfold_prim. rewrite Hreq, Hw. simpl. rewrite Hopen.
  rewrite bool_decide_eq_false_2 by by rewrite size_roots_zero.
  rewrite Hr. rewrite <- !app_assoc. simpl.
  destruct (renderForm (getUndecidedDependentWorkspaces env) fuel versionFile
              (session env) _) as [world1 [[d|]| |]]; done.
Qed.

(** What confirming writes: the file's map becomes the map of the form. *)
Lemma commit_run env world (file decisions : positive)
    (entries : gmap string versionUtils.Decision) :
  file ≠ decisions →
  maps world !! decisions = Some entries →
  (clearMap file ;;
   current ← readMap decisions;
   forEach (map_to_list current) (λ entry, setMap file entry.1 entry.2) ;;
   saved ← readMap file;
   call (SaveAll saved) (saveAll env) ;;
   mret None) world
  = ({| events := events world ++ [SaveAll entries];
        maps := <[file := entries]> (maps world) |},
     match saveAll env with
     | Returns _ => Returns (None : option Z)
     | Throws error => Throws error
     | OutOfFuel => OutOfFuel
     end).
Proof.
  intros Hne Hentries. unfold clearMap at 1. unfold readMap at 1.
  unfold mbind, Run_bind. simpl.
  rewrite lookup_total_insert_ne by done.
  rewrite (lookup_total_correct _ _ _ Hentries).
  rewrite (forEach_setMap file (map_to_list entries) _ ∅) by apply lookup_insert_eq.
  unfold_prim. rewrite lookup_total_insert_eq, insert_insert_eq, foldl_set_entries.
  by destruct (saveAll env).
Qed.

Ltac decide_calls :=
  repeat (rewrite elem_of_app in * || rewrite elem_of_cons in *
          || rewrite elem_of_nil in * );
  intuition (discriminate || congruence).

(** C7: with no version file, or with a version file that has no release
    root, the check returns 0 after the three opening calls: the form is not
    rendered, nothing is saved and the store is as it was.  With release
    roots but no VCS root it throws the usage error at that same point. *)
Theorem check_returns_early fuel env world :
  checkRequirements env = Returns () →
  is_Some (workspace env) →
  let run := executeInteractive fuel env world in
  (openVersionFile env = Returns None → run = (opened world, Returns (Some 0%Z)))
  ∧ (∀ versionFile,
       openVersionFile env = Returns (Some versionFile) →
       releaseRoots versionFile = ∅ →
       run = (opened world, Returns (Some 0%Z)))
  ∧ (∀ versionFile,
       openVersionFile env = Returns (Some versionFile) →
       releaseRoots versionFile ≠ ∅ →
       root versionFile = None →
       run = (opened world,
              Throws (UsageError "This command can only be run on Git repositories")))
  ∧ (RenderForm ∈ events (opened world) → RenderForm ∈ events world)
  ∧ (∀ saved, SaveAll saved ∈ events (opened world) → SaveAll saved ∈ events world).
Proof.
  intros Hreq [w Hw] run. subst run.
  unfold executeInteractive. unfold_prim. rewrite Hreq, Hw. simpl.
  rewrite <- !app_assoc. simpl.
  split; [|split; [|split; [|split]]].
  - by intros ->.
  - intros versionFile -> Hroots.
    by rewrite bool_decide_eq_true_2 by by rewrite size_roots_zero.
  - intros versionFile -> Hroots Hroot.
    rewrite bool_decide_eq_false_2 by by rewrite size_roots_zero.
    by rewrite Hroot.
  - decide_calls.
  - intros saved. decide_calls.
Qed.

(** What the session decides: with enough fuel the form returns a map
    exactly when the user confirms. *)
Lemma renderForm_returns dependents fuel versionFile user world :
  versionUtils.answersWithinProject dependents →
  length (versionUtils.workspaces (project versionFile)) < fuel →
  ∃ world1 final,
    renderForm dependents fuel versionFile user world
    = (world1, Returns (if confirmed user then Some final else None)).
Proof.
  intros Hwithin Hfuel.
  destruct (renderForm_run dependents fuel versionFile user world)
    as (world1 & outcome & Hrun & _ & _ & _ & _ & _ & Hret).
  destruct (Hret Hwithin Hfuel) as [final ->]. by exists world1, final.
Qed.

(** C4: when the form returns no map, the check returns 1, has not called
    [saveAll], and the [releases] map of the version file holds what it
    held.  In any run, [saveAll] is called only after the form has returned
    a map. *)
Theorem abort_persists_nothing fuel env world :
  (∀ versionFile,
     checkRequirements env = Returns () →
     is_Some (workspace env) →
     openVersionFile env = Returns (Some versionFile) →
     releaseRoots versionFile ≠ ∅ →
     is_Some (root versionFile) →
     is_Some (maps world !! releases versionFile) →
     (renderForm (getUndecidedDependentWorkspaces env) fuel versionFile
        (session env) (opened world)).2 = Returns None →
     let run := executeInteractive fuel env world in
     run.2 = Returns (Some 1%Z)
     ∧ events run.1
       = events world
         ++ [CheckRequirements; RestoreInstallState; OpenVersionFile; RenderForm]
     ∧ (∀ saved, SaveAll saved ∈ events run.1 → SaveAll saved ∈ events world)
     ∧ maps run.1 !! releases versionFile = maps world !! releases versionFile
     ∧ maps world ⊆ maps run.1)
  ∧ (∀ saved,
       SaveAll saved ∈ events (executeInteractive fuel env world).1 →
       SaveAll saved ∈ events world
       ∨ ∃ versionFile world1 decisions,
           openVersionFile env = Returns (Some versionFile)
           ∧ renderForm (getUndecidedDependentWorkspaces env) fuel versionFile
               (session env) (opened world)
             = (world1, Returns (Some decisions))
           ∧ confirmed (session env) = true).
Proof.
  split.
  - intros versionFile Hreq Hw Hopen Hroots Hroot [stored Hstored] Hnone run.
    subst run. rewrite (executeInteractive_reaches_form _ _ _ versionFile) by done.
    destruct (renderForm_run (getUndecidedDependentWorkspaces env) fuel versionFile
                (session env) (opened world))
      as (world1 & outcome & Hrun & Hev & Hsub & _).
    rewrite Hrun in *. simpl in Hnone. subst outcome. simpl.
    split; [done|]. split; [|split; [|split; [|done]]].
    + rewrite Hev. simpl. by rewrite <- app_assoc.
    + intros saved. rewrite Hev. simpl. decide_calls.
    + rewrite Hstored. by eapply lookup_weaken.
  - intros saved.
    destruct (checkRequirements env) as [[]| |] eqn:Hreq;
      [|unfold executeInteractive; unfold_prim; rewrite Hreq; simpl; decide_calls..].
    destruct (workspace env) as [w|] eqn:Hw;
      [|unfold executeInteractive; unfold_prim; rewrite Hreq, Hw; simpl; decide_calls].
    destruct (openVersionFile env) as [[versionFile|]| |] eqn:Hopen;
      [|unfold executeInteractive; unfold_prim; rewrite Hreq, Hw; simpl; rewrite Hopen;
        simpl; decide_calls..].
    destruct (decide (releaseRoots versionFile = ∅)) as [Hroots|Hroots].
    { unfold executeInteractive; unfold_prim. rewrite Hreq, Hw. simpl. rewrite Hopen.
      rewrite bool_decide_eq_true_2 by by rewrite size_roots_zero.
      simpl. decide_calls. }
    destruct (root versionFile) as [r|] eqn:Hroot.
    2:{ unfold executeInteractive; unfold_prim. rewrite Hreq, Hw. simpl. rewrite Hopen.
        rewrite bool_decide_eq_false_2 by by rewrite size_roots_zero.
        rewrite Hroot. simpl. decide_calls. }
    rewrite (executeInteractive_reaches_form _ _ _ versionFile) by (by rewrite ?Hw, ?Hroot).
    destruct (renderForm_run (getUndecidedDependentWorkspaces env) fuel versionFile
                (session env) (opened world))
      as (world1 & outcome & Hrun & Hev & Hsub & Hthrow & Habort & Hsome & _).
    rewrite Hrun. destruct outcome as [[decisions|]| |].
    + intros _. right. exists versionFile, world1, decisions.
      split; [done|]. split; [done|]. by destruct (Hsome decisions eq_refl).
    + simpl. rewrite Hev. simpl. decide_calls.
    + simpl. rewrite Hev. simpl. decide_calls.
    + simpl. rewrite Hev. simpl. decide_calls.
Qed.

(** C10: when the form returns a map, the [releases] map of the version file
    ends up holding exactly the entries of that map, whatever it held
    before, and that content is what [saveAll] is called on.  The returned
    map is an object of its own, which [clear()] on the file's map does not
    empty; the other maps of the store are not touched. *)
Theorem confirmation_replaces_releases fuel env world versionFile world1 returned :
  checkRequirements env = Returns () →
  is_Some (workspace env) →
  openVersionFile env = Returns (Some versionFile) →
  releaseRoots versionFile ≠ ∅ →
  is_Some (root versionFile) →
  is_Some (maps world !! releases versionFile) →
  renderForm (getUndecidedDependentWorkspaces env) fuel versionFile
    (session env) (opened world)
  = (world1, Returns (Some returned)) →
  ∃ decisions,
    maps world1 !! returned = Some decisions
    ∧ returned ≠ releases versionFile
    ∧ replay (getUndecidedDependentWorkspaces env) versionFile fuel
        (maps world !!! releases versionFile)
        (choices (session env)) = Some decisions
    ∧ let run := executeInteractive fuel env world in
      maps run.1 = <[releases versionFile := decisions]> (maps world1)
      ∧ maps run.1 !! releases versionFile = Some decisions
      ∧ (∀ w, decisions !! w = None →
              (maps run.1 !!! releases versionFile) !! w = None)
      ∧ events run.1
        = events world
          ++ [CheckRequirements; RestoreInstallState; OpenVersionFile; RenderForm;
              SaveAll decisions]
      ∧ run.2 = match saveAll env with
                | Returns _ => Returns None
                | Throws error => Throws error
                | OutOfFuel => OutOfFuel
                end.
Proof.
  intros Hreq Hw Hopen Hroots Hroot [stored Hstored] Hform.
  rewrite (executeInteractive_reaches_form _ _ _ versionFile) by done.
  destruct (renderForm_run (getUndecidedDependentWorkspaces env) fuel versionFile
              (session env) (opened world))
    as (world1' & outcome & Hrun & Hev & Hsub & _ & _ & Hsome & _).
  rewrite Hrun in Hform. injection Hform as -> ->.
  destruct (Hsome returned eq_refl) as (_ & Hnew & decisions & Hreplay & Hdecisions).
  exists decisions. rewrite Hrun.
  assert (releases versionFile ≠ returned) as Hne.
  { intros <-. simpl in Hnew. congruence. }
  split; [done|]. split; [done|]. split; [done|].
  rewrite (commit_run env world1 _ _ decisions Hne Hdecisions). simpl.
  split; [done|]. split; [apply lookup_insert_eq|]. split; [|split; [|done]].
  - intros w Hw'. by rewrite lookup_total_insert_eq.
  - rewrite Hev. simpl. by rewrite <- !app_assoc.
Qed.

(** A run in which the form returns a map: what is saved is the state the
    choices lead to from the content of the file's map. *)
Lemma executeInteractive_form_returned fuel env world versionFile
    (stored : gmap string versionUtils.Decision) world1 returned :
  checkRequirements env = Returns () →
  is_Some (workspace env) →
  openVersionFile env = Returns (Some versionFile) →
  releaseRoots versionFile ≠ ∅ →
  is_Some (root versionFile) →
  maps world !! releases versionFile = Some stored →
  renderForm (getUndecidedDependentWorkspaces env) fuel versionFile
    (session env) (opened world)
  = (world1, Returns (Some returned)) →
  ∃ decisions,
    replay (getUndecidedDependentWorkspaces env) versionFile fuel stored
      (choices (session env)) = Some decisions
    ∧ maps (executeInteractive fuel env world).1 !! releases versionFile = Some decisions
    ∧ events (executeInteractive fuel env world).1
      = events world
        ++ [CheckRequirements; RestoreInstallState; OpenVersionFile; RenderForm;
            SaveAll decisions]
    ∧ (executeInteractive fuel env world).2
      = match saveAll env with
        | Returns _ => Returns None
        | Throws error => Throws error
        | OutOfFuel => OutOfFuel
        end.
Proof.
  intros Hreq Hw Hopen Hroots Hroot Hstored Hform.
  rewrite (executeInteractive_reaches_form _ _ _ versionFile) by done.
  destruct (renderForm_run (getUndecidedDependentWorkspaces env) fuel versionFile
              (session env) (opened world))
    as (world1' & outcome & Hrun & Hev & Hsub & _ & _ & Hsome & _).
  rewrite Hrun in Hform. injection Hform as -> ->.
  destruct (Hsome returned eq_refl) as (_ & Hnew & decisions & Hreplay & Hdecisions).
  simpl in Hreplay, Hnew. rewrite (lookup_total_correct _ _ _ Hstored) in Hreplay.
  exists decisions. split; [done|]. rewrite Hrun.
  assert (releases versionFile ≠ returned) as Hne by (intros <-; congruence).
  rewrite (commit_run env world1 _ _ decisions Hne Hdecisions). simpl.
  split; [apply lookup_insert_eq|]. split; [|done].
  rewrite Hev. simpl. by rewrite <- !app_assoc.
Qed.

(** X14: when the form returns a map and the user has not chosen anything,
    the check saves the [releases] map of the version file as it found it:
    clearing the map and setting the entries of the copy again gives the map
    back, with every entry it had, the ones of workspaces that are not
    relevant included. *)
Theorem confirm_untouched_saves_as_is fuel env world versionFile
    (stored : gmap string versionUtils.Decision) world1 returned :
  checkRequirements env = Returns () →
  is_Some (workspace env) →
  openVersionFile env = Returns (Some versionFile) →
  releaseRoots versionFile ≠ ∅ →
  is_Some (root versionFile) →
  maps world !! releases versionFile = Some stored →
  renderForm (getUndecidedDependentWorkspaces env) fuel versionFile
    (session env) (opened world)
  = (world1, Returns (Some returned)) →
  choices (session env) = [] →
  let run := executeInteractive fuel env world in
  maps run.1 !! releases versionFile = Some stored
  ∧ events run.1
    = events world
      ++ [CheckRequirements; RestoreInstallState; OpenVersionFile; RenderForm;
          SaveAll stored]
  ∧ run.2 = match saveAll env with
            | Returns _ => Returns None
            | Throws error => Throws error
            | OutOfFuel => OutOfFuel
            end.
Proof.
  intros Hreq Hw Hopen Hroots Hroot Hstored Hform Hchoices run.
  subst run.
  destruct (executeInteractive_form_returned fuel env world versionFile stored
              world1 returned)
    as (decisions & Hreplay & Hrest); try done.
  rewrite Hchoices in Hreplay. simpl in Hreplay. by injection Hreplay as <-.
Qed.

(** X15: when the form returns a map after at least one choice, the map
    that is saved supports itself: it holds decisions of the file's map and
    choices of the user only, and each of them belongs to a release root or
    to a workspace that the saved decisions implicate. *)
Theorem saved_decisions_self_supporting fuel env world versionFile
    (stored : gmap string versionUtils.Decision) world1 returned :
  checkRequirements env = Returns () →
  is_Some (workspace env) →
  openVersionFile env = Returns (Some versionFile) →
  releaseRoots versionFile ≠ ∅ →
  is_Some (root versionFile) →
  maps world !! releases versionFile = Some stored →
  versionUtils.answersAsSpecified (getUndecidedDependentWorkspaces env) →
  renderForm (getUndecidedDependentWorkspaces env) fuel versionFile
    (session env) (opened world)
  = (world1, Returns (Some returned)) →
  choices (session env) ≠ [] →
  ∃ decisions,
    events (executeInteractive fuel env world).1
    = events world
      ++ [CheckRequirements; RestoreInstallState; OpenVersionFile; RenderForm;
          SaveAll decisions]
    ∧ maps (executeInteractive fuel env world).1 !! releases versionFile
      = Some decisions
    ∧ (∀ w d, decisions !! w = Some d → Implicated versionFile decisions w)
    ∧ (∀ w d, decisions !! w = Some d →
              stored !! w = Some d
              ∨ ((w, d) ∈ choices (session env) ∧ d ≠ versionUtils.UNDECIDED)).
Proof.
  intros Hreq Hw Hopen Hroots Hroot Hstored Hspec Hform Hchoices.
  destruct (executeInteractive_form_returned fuel env world versionFile stored
              world1 returned)
    as (decisions & Hreplay & Hmap & Hevents & _); try done.
  exists decisions. split; [done|]. split; [done|]. split.
  - by eapply replay_self_supporting.
  - by eapply replay_entries.
Qed.

(** The form returns no map only when the user has not confirmed. *)
Lemma renderForm_None dependents fuel versionFile user world world1 :
  renderForm dependents fuel versionFile user world = (world1, Returns None) →
  confirmed user = false.
Proof.
  unfold renderForm. unfold_prim.
  destruct (renderApp dependents fuel versionFile _ _) as [world0 [[]| |]]; try done.
  destruct (interact dependents fuel versionFile _ _ _) as [world2 [final| |]]; try done.
  by destruct (confirmed user).
Qed.

(** X16: the ways a run of the check ends.  It returns 0 only before the
    form, with the store untouched; it returns 1 only when the user has left
    the form without confirming, and then nothing is saved; it returns
    [undefined] only when the user has confirmed and [saveAll] has returned.
    The form is rendered only for a version file that has release roots and
    a VCS root, so [App] never finds [releaseRoots] empty. *)
Theorem check_outcomes fuel env world :
  (∀ versionFile, openVersionFile env = Returns (Some versionFile) →
                  is_Some (maps world !! releases versionFile)) →
  let run := executeInteractive fuel env world in
  (∀ code, run.2 = Returns (Some code) →
     (code = 0%Z ∧ run.1 = opened world)
     ∨ (code = 1%Z
        ∧ confirmed (session env) = false
        ∧ events run.1
          = events world
            ++ [CheckRequirements; RestoreInstallState; OpenVersionFile; RenderForm]))
  ∧ (run.2 = Returns None →
     confirmed (session env) = true
     ∧ saveAll env = Returns ()
     ∧ ∃ saved,
         events run.1
         = events world
           ++ [CheckRequirements; RestoreInstallState; OpenVersionFile; RenderForm;
               SaveAll saved])
  ∧ (RenderForm ∈ events run.1 →
     RenderForm ∈ events world
     ∨ ∃ versionFile,
         openVersionFile env = Returns (Some versionFile)
         ∧ releaseRoots versionFile ≠ ∅
         ∧ is_Some (root versionFile)).
Proof.
  intros Hstore run. subst run.
  destruct (checkRequirements env) as [[]| |] eqn:Hreq;
    [|unfold executeInteractive; unfold_prim; rewrite Hreq; simpl;
      (split; [done|]); (split; [done|]); decide_calls..].
  destruct (workspace env) as [w|] eqn:Hw;
    [|unfold executeInteractive; unfold_prim; rewrite Hreq, Hw; simpl;
      (split; [done|]); (split; [done|]); decide_calls].
  destruct (openVersionFile env) as [[versionFile|]| |] eqn:Hopen.
  2:{ unfold executeInteractive; unfold_prim. rewrite Hreq, Hw. simpl. rewrite Hopen.
      simpl. rewrite <- !app_assoc. simpl. split; [|split; [done|decide_calls]].
      intros code [= <-]. by left. }
  2,3: unfold executeInteractive; unfold_prim; rewrite Hreq, Hw; simpl; rewrite Hopen;
       simpl; (split; [done|]); (split; [done|]); decide_calls.
  destruct (decide (releaseRoots versionFile = ∅)) as [Hroots|Hroots].
  { unfold executeInteractive; unfold_prim. rewrite Hreq, Hw. simpl. rewrite Hopen.
    rewrite bool_decide_eq_true_2 by by rewrite size_roots_zero.
    simpl. rewrite <- !app_assoc. simpl. split; [|split; [done|decide_calls]].
    intros code [= <-]. by left. }
  destruct (root versionFile) as [r|] eqn:Hroot.
  2:{ unfold executeInteractive; unfold_prim. rewrite Hreq, Hw. simpl. rewrite Hopen.
      rewrite bool_decide_eq_false_2 by by rewrite size_roots_zero.
      rewrite Hroot. simpl. split; [done|]. split; [done|]. decide_calls. }
  rewrite (executeInteractive_reaches_form _ _ _ versionFile) by (by rewrite ?Hw, ?Hroot).
  destruct (Hstore versionFile eq_refl) as [stored Hstored].
  destruct (renderForm_run (getUndecidedDependentWorkspaces env) fuel versionFile
              (session env) (opened world))
    as (world1 & outcome & Hrun & Hev & Hsub & Hthrow & Habort & Hsome & _).
  rewrite Hrun.
  assert (∃ versionFile0,
            Returns (Some versionFile) = Returns (Some versionFile0)
            ∧ releaseRoots versionFile0 ≠ ∅ ∧ is_Some (root versionFile0)) as Hform.
  { exists versionFile. rewrite Hroot. by eauto. }
  destruct outcome as [[decisions|]| |].
  - destruct (Hsome decisions eq_refl) as (Hconfirmed & Hnew & entries & _ & Hentries).
    assert (releases versionFile ≠ decisions) as Hne.
    { intros <-. simpl in Hnew. congruence. }
    rewrite (commit_run env world1 _ _ entries Hne Hentries). simpl.
    split; [|split; [|by right]].
    + intros code Hcode. by destruct (saveAll env).
    + intros Hnone. split; [done|]. split.
      * by destruct (saveAll env) as [[]| |].
      * exists entries. rewrite Hev. simpl. by rewrite <- !app_assoc.
  - simpl. split; [|split; [done|by right]].
    intros code [= <-]. right. split; [done|]. split.
    + by eapply renderForm_None.
    + rewrite Hev. simpl. by rewrite <- !app_assoc.
  - simpl. split; [done|]. split; [done|]. by right.
  - simpl. split; [done|]. split; [done|]. by right.
Qed.

End Check.

(** * The claims at work on the chain project *)

Lemma getRelevancy_prunes_witness :
  ∃ RW' RR',
    getRelevancy versionUtils.getUndecidedDependentWorkspaces
    (chainFile {["A"]}) 4 (delete "A" decided) = Some (RW', RR')
    ∧ RW' = {["A"]}
    ∧ ("B" ∉ RW')
    ∧ RR' !! "B" = None.
Proof.
  destruct (getRelevancy_prunes _ (chainFile {["A"]})
              getUndecidedDependentWorkspaces_specified decided 4)
    as (RW & RR & _ & _ & _ & Hdrop); [simpl; lia|].
  destruct (Hdrop "A") as (RW' & RR' & Hrun & _ & _ & Honly).
  destruct Honly as [Hroots Hnone]; [set_solver|].
  exists RW', RR'. split; [exact Hrun|]. split; [exact Hroots|].
  apply Hnone. set_solver.
Defined.

(** An undecided dependent is relevant but implicates nothing: with only A
    released, B is asked for a decision and C is not. *)
Example chain_fixed_point :
  getRelevancy versionUtils.getUndecidedDependentWorkspaces
    (chainFile {["A"]}) 4 {["A" := versionUtils.MINOR]}
  = Some ({["A"; "B"]}, {["A" := versionUtils.MINOR]}).
Proof. compute_done. Qed.

(** The pruning scenario of the documentation, evaluated: with root set {A},
    B decided and the decision of A removed, B is forgotten; it stays when
    it is a release root itself. *)
Example pruning_scenario :
  getRelevancy versionUtils.getUndecidedDependentWorkspaces
    (chainFile {["A"]}) 4 decided = Some ({["A"; "B"; "C"]}, decided)
  ∧ getRelevancy versionUtils.getUndecidedDependentWorkspaces
    (chainFile {["A"]}) 4 (delete "A" decided) = Some ({["A"]}, ∅)
  ∧ getRelevancy versionUtils.getUndecidedDependentWorkspaces
    (chainFile {["A"; "B"]}) 4 (delete "A" decided)
    = Some ({["A"; "B"; "C"]}, {["B" := versionUtils.PATCH]}).
Proof. repeat split; compute_done. Qed.

(** With two roots, removing the decision of one does not forget a dependent
    that the other still implicates. *)
Example two_roots_scenario :
  getRelevancy versionUtils.getUndecidedDependentWorkspaces diamondFile 4
    (delete "A" {["A" := versionUtils.MINOR; "D" := versionUtils.MINOR;
                  "B" := versionUtils.PATCH]})
  = Some ({["A"; "B"; "D"]},
          {["D" := versionUtils.MINOR; "B" := versionUtils.PATCH]}).
Proof. compute_done. Qed.

(** C1, as stated, fails: A and D are the release roots and B, which is not
    one, depends on both and has been decided; when the decision of the root
    A is removed, B stays relevant and keeps its decision, since D still
    implicates it. *)
Lemma pruning_keeps_dependent_of_other_root :
  ∃ RW RR,
    getRelevancy versionUtils.getUndecidedDependentWorkspaces diamondFile 4
      (delete "A" {["A" := versionUtils.MINOR; "D" := versionUtils.MINOR;
                    "B" := versionUtils.PATCH]})
    = Some (RW, RR)
    ∧ "A" ∈ releaseRoots diamondFile
    ∧ ("B" ∉ releaseRoots diamondFile)
    ∧ "B" ∈ RW
    ∧ RR !! "B" = Some versionUtils.PATCH.
Proof.
  exists {["A"; "B"; "D"]}, {["D" := versionUtils.MINOR; "B" := versionUtils.PATCH]}.
  repeat split; compute_done.
Qed.

Lemma getRelevancy_idempotent_witness :
  getRelevancy versionUtils.getUndecidedDependentWorkspaces (chainFile {["A"]}) 4
    {["A" := versionUtils.MINOR]}
  = Some ({["A"; "B"]}, {["A" := versionUtils.MINOR]}).
Proof.
  apply (getRelevancy_idempotent _ (chainFile {["A"]})
           getUndecidedDependentWorkspaces_specified
           {["A" := versionUtils.MINOR; "C" := versionUtils.MAJOR]} 4).
  - simpl; lia.
  - compute_done.
Defined.

Lemma setWorkspaceRelease_root_stored_witness :
  ∃ releases',
    setWorkspaceRelease versionUtils.getUndecidedDependentWorkspaces
    (chainFile {["A"]}) 4 ∅ "A" versionUtils.DECLINE = Some releases'
    ∧ releases' !! "A" = Some versionUtils.DECLINE.
Proof.
  apply (setWorkspaceRelease_root_stored _ (chainFile {["A"]})
           getUndecidedDependentWorkspaces_within ∅ "A" versionUtils.DECLINE 4).
  - simpl; lia.
  - compute_done.
  - discriminate.
Defined.

Lemma getRelevancy_terminates_witness :
  ∃ turns result,
    turns ≤ 3
    ∧ ∀ fuel,
        getRelevancy versionUtils.getUndecidedDependentWorkspaces
          (chainFile {["A"]}) fuel decided
        = if decide (turns ≤ fuel) then Some result else None.
Proof.
  destruct (getRelevancy_terminates _ (chainFile {["A"]})
              getUndecidedDependentWorkspaces_within decided)
    as (_ & turns & result & _ & _ & _ & Hbound & Hrun).
  exists turns, result. split; [|exact Hrun].
  assert (size (list_to_set (versionUtils.workspaces (project (chainFile {["A"]})))
                  : gset string) = 3) as <- by (vm_compute; reflexivity).
  apply Hbound; [apply getUndecidedDependentWorkspaces_specified|set_solver|done].
Defined.

(** The loop is cut short with two units of fuel and returns with three:
    a turn for B, a turn for C, and the turn that finds nothing new. *)
Example chain_turns :
  getRelevancy versionUtils.getUndecidedDependentWorkspaces
    (chainFile {["A"]}) 2 decided = None
  ∧ getRelevancy versionUtils.getUndecidedDependentWorkspaces
    (chainFile {["A"]}) 3 decided = Some ({["A"; "B"; "C"]}, decided).
Proof. split; compute_done. Qed.

Lemma getRelevancy_restriction_witness :
  ∃ RW RR,
    getRelevancy versionUtils.getUndecidedDependentWorkspaces
    (chainFile {["A"]}) 4 {["C" := versionUtils.MAJOR]} = Some (RW, RR)
    ∧ RR = filter (λ entry : string * versionUtils.Decision, entry.1 ∈ RW)
             {["C" := versionUtils.MAJOR]}
    ∧ {["A"]} ⊆ RW.
Proof.
  destruct (getRelevancy_restriction _ (chainFile {["A"]})
              getUndecidedDependentWorkspaces_within {["C" := versionUtils.MAJOR]} 4)
    as (RW & RR & Hrun & Hfilter & _ & _ & _ & Hroots); [simpl; lia|].
  by exists RW, RR.
Defined.

Lemma setWorkspaceRelease_no_undecided_witness :
  ∃ releases',
    setWorkspaceRelease versionUtils.getUndecidedDependentWorkspaces
    (chainFile {["A"]}) 4 decided "B" versionUtils.UNDECIDED
    = Some releases'
    ∧ releases' !! "B" = None
    ∧ noUndecided releases'.
Proof.
  destruct (setWorkspaceRelease_no_undecided _ (chainFile {["A"]})
              getUndecidedDependentWorkspaces_within decided "B"
              versionUtils.UNDECIDED 4)
    as (releases' & Hset & _ & Hkeep & Hdel & _); [simpl; lia|].
  exists releases'. split; [exact Hset|]. split; [by apply Hdel|].
  apply Hkeep. apply noUndecided_map_Forall. compute_done.
Defined.

Example setWorkspaceRelease_scenario :
  setWorkspaceRelease versionUtils.getUndecidedDependentWorkspaces
    (chainFile {["A"]}) 4 decided "B" versionUtils.UNDECIDED
  = Some {["A" := versionUtils.MINOR]}
  ∧ setWorkspaceRelease versionUtils.getUndecidedDependentWorkspaces
    (chainFile {["A"]}) 4 decided "A" versionUtils.UNDECIDED
    = Some ∅
  ∧ setWorkspaceRelease versionUtils.getUndecidedDependentWorkspaces
    (chainFile {["A"]}) 4 decided "B" versionUtils.DECLINE
    = Some {["A" := versionUtils.MINOR; "B" := versionUtils.DECLINE]}.
Proof. repeat split; compute_done. Qed.

Lemma check_returns_early_witness :
  VersionCheckCommand.executeInteractive 4 (checkEnv (chainFile ∅) (unrelease true))
    (checkWorld decided)
  = ({| events := events (checkWorld decided)
                  ++ [CheckRequirements; RestoreInstallState; OpenVersionFile];
        maps := maps (checkWorld decided) |},
     Returns (Some 0%Z))
  ∧ VersionCheckCommand.executeInteractive 4 (checkEnv chainFileWithoutGit (unrelease true))
      (checkWorld decided)
    = ({| events := events (checkWorld decided)
                    ++ [CheckRequirements; RestoreInstallState; OpenVersionFile];
          maps := maps (checkWorld decided) |},
       Throws (UsageError "This command can only be run on Git repositories")).
Proof.
  split.
  - apply (proj1 (proj2 (check_returns_early 4 (checkEnv (chainFile ∅) (unrelease true))
                           (checkWorld decided) eq_refl (ex_intro _ "A" eq_refl)))
             (chainFile ∅)); reflexivity.
  - apply (proj1 (proj2 (proj2 (check_returns_early 4
                                  (checkEnv chainFileWithoutGit (unrelease true))
                                  (checkWorld decided) eq_refl (ex_intro _ "A" eq_refl))))
             chainFileWithoutGit); [reflexivity|set_solver|reflexivity].
Defined.

Lemma abort_persists_nothing_witness :
  let run := VersionCheckCommand.executeInteractive 4
               (checkEnv (chainFile {["A"]}) (unrelease false)) (checkWorld decided) in
  run.2 = Returns (Some 1%Z)
  ∧ events run.1
    = events (checkWorld decided)
      ++ [CheckRequirements; RestoreInstallState; OpenVersionFile; RenderForm]
  ∧ (∀ saved, SaveAll saved ∈ events run.1 → SaveAll saved ∈ events (checkWorld decided))
  ∧ maps run.1 !! releases (chainFile {["A"]})
    = maps (checkWorld decided) !! releases (chainFile {["A"]})
  ∧ maps (checkWorld decided) ⊆ maps run.1.
Proof.
  apply (proj1 (abort_persists_nothing 4 (checkEnv (chainFile {["A"]}) (unrelease false))
                  (checkWorld decided)) (chainFile {["A"]})).
  - reflexivity.
  - by exists "A".
  - reflexivity.
  - compute_done.
  - by exists "/repo".
  - by exists decided.
  - compute_done.
Defined.

Lemma confirmation_replaces_releases_witness :
  ∃ decisions,
    replay versionUtils.getUndecidedDependentWorkspaces
    (chainFile {["A"]}) 4 decided [("A", versionUtils.UNDECIDED)] = Some decisions
    ∧ let run := VersionCheckCommand.executeInteractive 4
                   (checkEnv (chainFile {["A"]}) (unrelease true)) (checkWorld decided) in
      maps run.1 !! 1%positive = Some decisions
      ∧ events run.1
        = [CheckRequirements; RestoreInstallState; OpenVersionFile; RenderForm;
           SaveAll decisions].
Proof.
  destruct (renderForm_returns versionUtils.getUndecidedDependentWorkspaces 4
              (chainFile {["A"]}) (unrelease true)
              {| events := events (checkWorld decided)
                           ++ [CheckRequirements; RestoreInstallState; OpenVersionFile];
                 maps := maps (checkWorld decided) |})
    as (world1 & returned & Hform);
    [apply getUndecidedDependentWorkspaces_within|simpl; lia|].
  destruct (confirmation_replaces_releases 4 (checkEnv (chainFile {["A"]}) (unrelease true))
              (checkWorld decided) (chainFile {["A"]}) world1 returned)
    as (decisions & _ & _ & Hreplay & _ & Hfile & _ & Hevents & _).
  - reflexivity.
  - by exists "A".
  - reflexivity.
  - compute_done.
  - by exists "/repo".
  - by exists decided.
  - exact Hform.
  - exists decisions. split; [exact Hreplay|]. split; [exact Hfile|exact Hevents].
Defined.

(** The two endings of the same session, evaluated: on <ctrl+c> the file's
    map keeps both decisions and nothing is saved; on <enter> it is emptied,
    since un-releasing A also forgets B, and the empty map is saved. *)
Example check_session_scenario :
  let aborted := VersionCheckCommand.executeInteractive 4
                   (checkEnv (chainFile {["A"]}) (unrelease false)) (checkWorld decided) in
  let confirmed := VersionCheckCommand.executeInteractive 4
                     (checkEnv (chainFile {["A"]}) (unrelease true)) (checkWorld decided) in
  aborted.2 = Returns (Some 1%Z)
  ∧ maps aborted.1 !! 1%positive = Some decided
  ∧ events aborted.1
    = [CheckRequirements; RestoreInstallState; OpenVersionFile; RenderForm]
  ∧ confirmed.2 = Returns None
  ∧ maps confirmed.1 !! 1%positive = Some ∅
  ∧ events confirmed.1
    = [CheckRequirements; RestoreInstallState; OpenVersionFile; RenderForm; SaveAll ∅].
Proof. repeat split; compute_done. Qed.

(** The four endings of [yarn version apply] on a pending MINOR bump of A:
    a plain run clears the version files and installs; a dry run stops after
    [applyReleases]; a prerelease run installs without clearing; and when
    [applyReleases] throws, the error is reported, nothing is cleared and the
    exit code is 1. *)
Example apply_scenarios :
  let pending : gmap string versionUtils.Decision := {["A" := versionUtils.MINOR]} in
  let run this env := VersionApplyCommand.execute this env initial in
  let plain := run (applyOptions false JsUndefined) (applyEnv pending) in
  let dry := run (applyOptions true JsUndefined) (applyEnv pending) in
  let pre := run (applyOptions false (JsBoolean true)) (applyEnv pending) in
  let failing := run (applyOptions false JsUndefined) (applyEnvFailing pending) in
  events plain.1
  = [RestoreInstallState; ResolveVersionFiles JsNull; ApplyReleases pending;
     ClearVersionFiles; ReportSeparator; Install]
  ∧ events dry.1
    = [RestoreInstallState; ResolveVersionFiles JsNull; ApplyReleases pending]
  ∧ events pre.1
    = [RestoreInstallState; ResolveVersionFiles (JsString "rc.%n");
       ApplyReleases pending; ReportSeparator; Install]
  ∧ events failing.1
    = [RestoreInstallState; ResolveVersionFiles JsNull; ApplyReleases pending;
       ReportError (CollaboratorError "Invalid version")]
  ∧ failing.2 = Returns 1%Z.
Proof. repeat split; compute_done. Qed.

(** * The form and the two commands on the chain project *)

Lemma setWorkspaceRelease_keeps_others_witness :
  ∃ releases',
    setWorkspaceRelease versionUtils.getUndecidedDependentWorkspaces
    (chainFile {["A"]}) 4 decided "B" versionUtils.DECLINE = Some releases'
    ∧ (∀ d', releases' !! "B" = Some d' → d' = versionUtils.DECLINE)
    ∧ dom releases' ⊆ dom decided ∪ {["B"]}.
Proof.
  destruct (setWorkspaceRelease_keeps_others _ (chainFile {["A"]})
              getUndecidedDependentWorkspaces_within decided "B"
              versionUtils.DECLINE 4)
    as (releases' & Hset & _ & Hown & Hdom); [simpl; lia|].
  exists releases'. split; [exact Hset|]. split; [exact Hown|exact Hdom].
Defined.

Lemma choices_store_strategies_witness :
  ∃ final,
    replay versionUtils.getUndecidedDependentWorkspaces (chainFile {["A"]}) 4 decided
      [("B", versionUtils.DECLINE); ("A", versionUtils.MAJOR)] = Some final
    ∧ ∀ w d, final !! w = Some d →
             decided !! w = Some d
             ∨ d ∈ [versionUtils.DECLINE; versionUtils.PATCH;
                    versionUtils.MINOR; versionUtils.MAJOR].
Proof.
  destruct (choices_store_strategies _ (chainFile {["A"]})
              getUndecidedDependentWorkspaces_within decided
              [("B", versionUtils.DECLINE); ("A", versionUtils.MAJOR)] 4)
    as (final & Hfinal & _ & Hstrategies); [simpl; lia|].
  exists final. split; [exact Hfinal|]. apply Hstrategies.
  repeat (apply List.Forall_cons; [unfold strategies; simpl; repeat constructor|]).
  apply List.Forall_nil.
Defined.

Lemma groups_partition_witness :
  ∃ RW RR,
    getRelevancy versionUtils.getUndecidedDependentWorkspaces
    (chainFile {["A"]}) 4 decided = Some (RW, RR)
    ∧ {["A"]} ∪ dependentWorkspaces (chainFile {["A"]}) RW = RW
    ∧ size ({["A"]} : gset string) + size (dependentWorkspaces (chainFile {["A"]}) RW)
      = size RW.
Proof.
  destruct (groups_partition _ (chainFile {["A"]})
              getUndecidedDependentWorkspaces_within decided 4)
    as (RW & RR & Hrun & Hunion & _ & Hsize & _); [simpl; lia|].
  exists RW, RR. split; [exact Hrun|]. split; [exact Hunion|exact Hsize].
Defined.

Lemma decline_stops_propagation_witness :
  ∃ RW RR,
    getRelevancy versionUtils.getUndecidedDependentWorkspaces (chainFile {["A"]}) 4
      (<["B" := versionUtils.DECLINE]> decided) = Some (RW, RR)
    ∧ getRelevancy versionUtils.getUndecidedDependentWorkspaces (chainFile {["A"]}) 4
        (delete "B" decided) = Some (RW, delete "B" RR).
Proof.
  destruct (decline_stops_propagation _ (chainFile {["A"]})
              getUndecidedDependentWorkspaces_specified decided "B" 4)
    as (RW & RR & Hdeclined & Habsent & _); [simpl; lia|].
  exists RW, RR. split; [exact Hdeclined|exact Habsent].
Defined.

Lemma choice_stays_displayed_witness :
  ∃ releases' RW' RR',
    setWorkspaceRelease versionUtils.getUndecidedDependentWorkspaces
    (chainFile {["A"]}) 4 {["A" := versionUtils.MINOR]} "B" versionUtils.PATCH
    = Some releases'
    ∧ getRelevancy versionUtils.getUndecidedDependentWorkspaces
        (chainFile {["A"]}) 4 releases' = Some (RW', RR')
    ∧ "B" ∈ RW'
    ∧ displayedDecision releases' "B" = versionUtils.PATCH.
Proof.
  apply (choice_stays_displayed _ (chainFile {["A"]})
           getUndecidedDependentWorkspaces_specified
           {["A" := versionUtils.MINOR]} "B" versionUtils.PATCH 4
           {["A"; "B"]} {["A" := versionUtils.MINOR]}).
  - simpl; lia.
  - compute_done.
  - set_solver.
  - unfold strategies. set_solver.
Defined.

Lemma applyReleases_only_resolved_witness :
  is_Some (VersionApplyCommand.workspace (applyEnv {["A" := versionUtils.MINOR]}))
  ∧ VersionApplyCommand.resolveVersionFiles (applyEnv {["A" := versionUtils.MINOR]})
      (VersionApplyCommand.prereleaseIdentifier
         (VersionApplyCommand.prerelease (applyOptions true JsUndefined)))
    = Returns {["A" := versionUtils.MINOR]}
  ∧ ({["A" := versionUtils.MINOR]} : gmap string versionUtils.Decision) ≠ ∅.
Proof.
  apply (applyReleases_only_resolved (applyOptions true JsUndefined)
           (applyEnv {["A" := versionUtils.MINOR]})).
  compute_done.
Defined.

Lemma install_follows_success_witness :
  ∃ allReleases,
    VersionApplyCommand.applyReleases (applyEnv {["A" := versionUtils.MINOR]}) allReleases
    = Returns ()
    ∧ events (VersionApplyCommand.execute (applyOptions false (JsBoolean true))
                (applyEnv {["A" := versionUtils.MINOR]}) initial).1
      = [RestoreInstallState; ResolveVersionFiles (JsString "rc.%n");
         ApplyReleases allReleases; ReportSeparator; Install].
Proof.
  destruct (install_follows_success (applyOptions false (JsBoolean true))
              (applyEnv {["A" := versionUtils.MINOR]}))
    as (_ & allReleases & _ & _ & Happly & _ & Hcalls); [compute_done|].
  exists allReleases. split; [exact Happly|exact Hcalls].
Defined.

Lemma confirm_untouched_saves_as_is_witness :
  let run := VersionCheckCommand.executeInteractive 4
               (checkEnv (chainFile {["A"]}) untouched) (checkWorld leftover) in
  maps run.1 !! 1%positive = Some leftover
  ∧ events run.1
    = [CheckRequirements; RestoreInstallState; OpenVersionFile; RenderForm;
       SaveAll leftover]
  ∧ run.2 = Returns None.
Proof.
  destruct (renderForm_returns versionUtils.getUndecidedDependentWorkspaces 4
              (chainFile {["A"]}) untouched
              {| events := events (checkWorld leftover)
                           ++ [CheckRequirements; RestoreInstallState; OpenVersionFile];
                 maps := maps (checkWorld leftover) |})
    as (world1 & returned & Hform);
    [apply getUndecidedDependentWorkspaces_within|simpl; lia|].
  apply (confirm_untouched_saves_as_is 4 (checkEnv (chainFile {["A"]}) untouched)
           (checkWorld leftover) (chainFile {["A"]}) leftover world1 returned).
  - reflexivity.
  - by exists "A".
  - reflexivity.
  - compute_done.
  - by exists "/repo".
  - reflexivity.
  - exact Hform.
  - reflexivity.
Defined.

Lemma saved_decisions_self_supporting_witness :
  ∃ decisions,
    events (VersionCheckCommand.executeInteractive 4
              (checkEnv (chainFile {["A"]}) declineB) (checkWorld leftover)).1
    = [CheckRequirements; RestoreInstallState; OpenVersionFile; RenderForm;
       SaveAll decisions]
    ∧ ∀ w d, decisions !! w = Some d → Implicated (chainFile {["A"]}) decisions w.
Proof.
  destruct (renderForm_returns versionUtils.getUndecidedDependentWorkspaces 4
              (chainFile {["A"]}) declineB
              {| events := events (checkWorld leftover)
                           ++ [CheckRequirements; RestoreInstallState; OpenVersionFile];
                 maps := maps (checkWorld leftover) |})
    as (world1 & returned & Hform);
    [apply getUndecidedDependentWorkspaces_within|simpl; lia|].
  destruct (saved_decisions_self_supporting 4 (checkEnv (chainFile {["A"]}) declineB)
              (checkWorld leftover) (chainFile {["A"]}) leftover world1 returned)
    as (decisions & Hevents & _ & Hsupport & _).
  - reflexivity.
  - by exists "A".
  - reflexivity.
  - compute_done.
  - by exists "/repo".
  - reflexivity.
  - apply getUndecidedDependentWorkspaces_specified.
  - exact Hform.
  - discriminate.
  - exists decisions. split; [exact Hevents|exact Hsupport].
Defined.

(** The summary line of the chain project: with A released and B decided,
    C remains; a declined workspace is counted in neither group. *)
Example Stats_scenario :
  Stats decided {["A"; "B"; "C"]} = "3 total, 2 releases, 1 remaining"
  ∧ Stats {["A" := versionUtils.MINOR; "B" := versionUtils.DECLINE]} {["A"; "B"; "C"]}
    = "3 total, 1 release, 1 remaining"
  ∧ Stats ∅ ∅ = "0 total, 0 releases, 0 remaining".
Proof. repeat split; compute_done. Qed.

(** A first <shift+tab> takes the focus away from both groups; a first
    <tab> gives it to the dependents. *)
Example focus_scenario :
  focusAfter [BEFORE] = (-1)%Z
  ∧ rootsActive (focusAfter [BEFORE]) = false
  ∧ dependentsActive (focusAfter [BEFORE]) = false
  ∧ dependentsActive (focusAfter [AFTER]) = true
  ∧ rootsActive (focusAfter [BEFORE; BEFORE]) = true.
Proof. repeat split; compute_done. Qed.

(** The same leftover decision for C is saved when the user confirms at
    once, and forgotten when the user first declines B. *)
Example leftover_scenario :
  let at_once := VersionCheckCommand.executeInteractive 4
                   (checkEnv (chainFile {["A"]}) untouched) (checkWorld leftover) in
  let after_choice := VersionCheckCommand.executeInteractive 4
                        (checkEnv (chainFile {["A"]}) declineB) (checkWorld leftover) in
  maps at_once.1 !! 1%positive = Some leftover
  ∧ maps after_choice.1 !! 1%positive
    = Some {["A" := versionUtils.MINOR; "B" := versionUtils.DECLINE]}.
Proof. repeat split; compute_done. Qed.

(** When [clearVersionFiles] throws, the error is reported, the installer
    is not called and the exit code is 1. *)
Example unclearable_scenario :
  let pending : gmap string versionUtils.Decision := {["A" := versionUtils.MINOR]} in
  let run := VersionApplyCommand.execute (applyOptions false JsUndefined)
               (applyEnvUnclearable pending) initial in
  events run.1
  = [RestoreInstallState; ResolveVersionFiles JsNull; ApplyReleases pending;
     ClearVersionFiles; ReportError (CollaboratorError "EACCES")]
  ∧ run.2 = Returns 1%Z.
Proof. repeat split; compute_done. Qed.

Lemma check_outcomes_witness :
  VersionCheckCommand.confirmed (unrelease false) = false
  ∧ events (VersionCheckCommand.executeInteractive 4
              (checkEnv (chainFile {["A"]}) (unrelease false)) (checkWorld decided)).1
    = [CheckRequirements; RestoreInstallState; OpenVersionFile; RenderForm].
Proof.
  destruct (check_outcomes 4 (checkEnv (chainFile {["A"]}) (unrelease false))
              (checkWorld decided))
    as (Hcode & _ & _).
  - intros versionFile [= <-]. by exists decided.
  - destruct (Hcode 1%Z) as [[Hzero _]|(_ & Hconfirmed & Hevents)].
    + compute_done.
    + discriminate.
    + split; [exact Hconfirmed|exact Hevents].
Defined.

Lemma choice_is_monotone_witness :
  ∃ RW RR releases' RW' RR',
    getRelevancy versionUtils.getUndecidedDependentWorkspaces (chainFile {["A"]}) 4
      {["A" := versionUtils.MINOR]} = Some (RW, RR)
    ∧ setWorkspaceRelease versionUtils.getUndecidedDependentWorkspaces
        (chainFile {["A"]}) 4 {["A" := versionUtils.MINOR]} "B" versionUtils.PATCH
      = Some releases'
    ∧ getRelevancy versionUtils.getUndecidedDependentWorkspaces (chainFile {["A"]}) 4
        releases' = Some (RW', RR')
    ∧ RW ⊆ RW'.
Proof.
  destruct (choice_is_monotone _ (chainFile {["A"]})
              getUndecidedDependentWorkspaces_specified
              {["A" := versionUtils.MINOR]} "B" versionUtils.PATCH 4)
    as (RW & RR & releases' & RW' & RR' & Hbefore & Hset & Hafter & Hgrows & _);
    [simpl; lia|].
  exists RW, RR, releases', RW', RR'.
  split; [exact Hbefore|]. split; [exact Hset|]. split; [exact Hafter|].
  apply Hgrows; discriminate.
Defined.

(** Deciding B brings C into the form; declining B takes it out again. *)
Example monotone_scenario :
  getRelevancy versionUtils.getUndecidedDependentWorkspaces (chainFile {["A"]}) 4
    {["A" := versionUtils.MINOR]}
  = Some ({["A"; "B"]}, {["A" := versionUtils.MINOR]})
  ∧ getRelevancy versionUtils.getUndecidedDependentWorkspaces (chainFile {["A"]}) 4
      decided
    = Some ({["A"; "B"; "C"]}, decided)
  ∧ getRelevancy versionUtils.getUndecidedDependentWorkspaces (chainFile {["A"]}) 4
      {["A" := versionUtils.MINOR; "B" := versionUtils.DECLINE]}
    = Some ({["A"; "B"]}, {["A" := versionUtils.MINOR; "B" := versionUtils.DECLINE]}).
Proof. repeat split; compute_done. Qed.
